(** * JVAE (gimVI): the joint model core of [scvi/models/jvae.py]

    A shallow embedding of the class [JVAE] and a verification of its
    encode / decode / loss pipeline.

    Numbers.  Tensor entries are real numbers ([R]); rounding is outside the
    model, so an equation proved here is the exact-arithmetic reading of the
    corresponding tensor equation.  [ln] of a non-positive number and
    division by zero follow the Standard Library's conventions; no theorem
    below relies on them.

    Tensors.  A 2-D tensor is the list of its rows, a 1-D tensor a list of
    entries, an integer index tensor (batch_index, y) a list of integers,
    one per cell.  A tensor with no rows carries no width.

    Effects.  The sub-networks draw from torch's random generator (the
    reparameterised samples, dropout) and may raise.  Every method is
    therefore a computation in a state-and-exception monad over the
    generator state [G]. *)

From Stdlib Require Import String Reals Lra List ZArith Bool Lia.
Import ListNotations.

Set Implicit Arguments.

Local Open Scope string_scope.
Local Open Scope R_scope.

(** ** Python values: exceptions, results, list indexing *)

Module Py.

Inductive exc : Type :=
| Exception (msg : string)
| TypeError
| IndexError
| AttributeError
| ValueError
| RuntimeError.

Inductive result (A : Type) : Type :=
| Ok (a : A)
| Raise (e : exc).

Arguments Ok {A} a.
Arguments Raise {A} e.

Definition rbind {A B} (r : result A) (k : A -> result B) : result B :=
  match r with
  | Ok a => k a
  | Raise e => Raise e
  end.

Definition rmap {A B} (f : A -> B) (r : result A) : result B :=
  rbind r (fun a => Ok (f a)).

Fixpoint mapM {A B} (f : A -> result B) (l : list A) : result (list B) :=
  match l with
  | [] => Ok []
  | a :: l' => rbind (f a) (fun b => rbind (mapM f l') (fun bs => Ok (b :: bs)))
  end.

(** [l[i]] for a Python list: [None] is not an index, a negative index
    counts from the end, anything else out of range raises. *)
Definition index {A} (l : list A) (i : option Z) : result A :=
  match i with
  | None => Raise TypeError
  | Some i =>
      let n := Z.of_nat (length l) in
      let j := if (i <? 0)%Z then (i + n)%Z else i in
      if ((0 <=? j) && (j <? n))%Z then
        match nth_error l (Z.to_nat j) with
        | Some a => Ok a
        | None => Raise IndexError
        end
      else Raise IndexError
  end.

End Py.

Import Py.

(** ** Tensors *)

Definition vec := list R.
Definition tensor := list (list R).
Definition itensor := list Z.

Definition rsum (r : list R) : R := fold_right Rplus 0 r.

(** [torch.sum(t, dim=1)], also the method [.sum(dim=1)]. *)
Definition sum_dim1 (t : tensor) : vec := map rsum t.

(** [v.view(-1, 1)] of a 1-D tensor. *)
Definition view_col (v : vec) : tensor := map (fun s => [s]) v.

Definition tmap (f : R -> R) (t : tensor) : tensor := map (map f) t.

Definition texp : tensor -> tensor := tmap exp.
Definition tsqrt : tensor -> tensor := tmap sqrt.
Definition tlog : tensor -> tensor := tmap ln.
Definition vneg : vec -> vec := map Ropp.

(** Broadcasting along one axis: sizes agree, or one of them is 1. *)
Definition bcast {A B C} (f : A -> B -> result C) (l : list A) (r : list B)
  : result (list C) :=
  match l, r with
  | _, [b] => mapM (fun a => f a b) l
  | [a], _ => mapM (f a) r
  | _, _ =>
      if (length l =? length r)%nat
      then mapM (fun ab => f (fst ab) (snd ab)) (combine l r)
      else Raise RuntimeError
  end.

Definition vbcast (f : R -> R -> R) : vec -> vec -> result vec :=
  bcast (fun a b => Ok (f a b)).

Definition tbcast (f : R -> R -> R) : tensor -> tensor -> result tensor :=
  bcast (vbcast f).

Definition tdiv := tbcast Rdiv.
Definition tmul := tbcast Rmult.
Definition tsub := tbcast Rminus.
Definition tadd := tbcast Rplus.
Definition vadd := vbcast Rplus.

(** The rows of [t] scaled by the entries of a 1-D tensor of the same
    height: what [t / v.view(-1, 1)] and [t * v.view(-1, 1)] compute. *)
Definition scale_rows (f : R -> R -> R) (t : tensor) (v : vec) : tensor :=
  map (fun rs => map (fun a => f a (snd rs)) (fst rs)) (combine t v).

Definition divide_rows : tensor -> vec -> tensor := scale_rows Rdiv.

Definition zeros_like (t : tensor) : tensor := tmap (fun _ => 0) t.
Definition ones_like (t : tensor) : tensor := tmap (fun _ => 1) t.
Definition vzeros_like (v : vec) : vec := map (fun _ => 0) v.

(** ** Index mappings and column gathers

    An index mapping is an integer array (fancy indexing) or a slice. *)

Inductive index_mapping : Type :=
| Indices (l : list Z)
| Slice (start stop step : option Z).

(** An integer array holds 64-bit integers: torch turns the mapping into
    an int64 index tensor before it indexes, and raises ValueError at an
    entry that does not fit.  A slice is used as it is. *)
Definition int64 (i : Z) : bool := ((- 2 ^ 63 <=? i) && (i <? 2 ^ 63))%Z.

Definition int64_index (idx : index_mapping) : bool :=
  match idx with
  | Indices l => forallb int64 l
  | Slice _ _ _ => true
  end.

(** The position selected by the integer [i] in a sequence of length [n]:
    a negative [i] counts from the end.  For an entry of an index tensor
    [i] is an int64 (see [gather]); for the subscript of a Python list it
    is any integer, and one outside the list raises IndexError whatever
    its size. *)
Definition fancy_position (n : nat) (i : Z) : result nat :=
  let j := if (i <? 0)%Z then (i + Z.of_nat n)%Z else i in
  if ((0 <=? j) && (j <? Z.of_nat n))%Z then Ok (Z.to_nat j) else Raise IndexError.

Definition clamp_bound (n : Z) (b : Z) : Z :=
  let b := if (b <? 0)%Z then (b + n)%Z else b in
  if (b <? 0)%Z then 0%Z else if (n <? b)%Z then n else b.

Definition slice_positions (n : nat) (start stop step : option Z) : result (list nat) :=
  let st := match step with Some s => s | None => 1%Z end in
  if (st <=? 0)%Z then Raise ValueError
  else
    let lo := match start with Some a => clamp_bound (Z.of_nat n) a | None => 0%Z end in
    let hi := match stop with Some b => clamp_bound (Z.of_nat n) b | None => Z.of_nat n end in
    let hi := if (hi <? lo)%Z then lo else hi in
    let len := Z.to_nat ((hi - lo + st - 1) / st) in
    Ok (map (fun k => Z.to_nat (lo + Z.of_nat k * st)) (seq 0 len)).

Definition positions (n : nat) (idx : index_mapping) : result (list nat) :=
  match idx with
  | Indices l => mapM (fancy_position n) l
  | Slice start stop step => slice_positions n start stop step
  end.

Definition gather_row (idx : index_mapping) (row : list R) : result (list R) :=
  rmap (map (fun p => nth p row 0)) (positions (length row) idx).

(** [t[:, idx]]: the index is converted first, then every row is read at
    the selected columns. *)
Definition gather (t : tensor) (idx : index_mapping) : result tensor :=
  if int64_index idx then mapM (gather_row idx) t else Raise ValueError.

(** ** Library functions used by the model *)

(** Modelled from the spec: [scvi.models.utils.one_hot] is not among the
    sources; the spec describes it as mapping integer category indices to
    an indicator matrix, and an index out of range as a computation
    failure.  Row [i] is the indicator of [index[i]] among [n_cat]
    categories. *)
Definition one_hot (index : itensor) (n_cat : nat) : result tensor :=
  mapM (fun c =>
          if ((0 <=? c) && (c <? Z.of_nat n_cat))%Z
          then Ok (map (fun k => if (Z.of_nat k =? c)%Z then 1 else 0) (seq 0 n_cat))
          else Raise RuntimeError)
       index.

Definition dot (a b : list R) : result R :=
  if (length a =? length b)%nat
  then Ok (rsum (map (fun ab => fst ab * snd ab) (combine a b)))
  else Raise RuntimeError.

(** [F.linear(input, weight)] without bias: [input @ weight.T]. *)
Definition F_linear (input weight : tensor) : result tensor :=
  mapM (fun row => mapM (dot row) weight) input.

(** [torch.distributions.Normal(loc, scale)]: the parameters are broadcast
    against each other. *)
Record Normal : Type := { loc : tensor; scale : tensor }.

Definition mkNormal (l s : tensor) : result Normal :=
  rbind (tbcast (fun a _ => a) l s) (fun l' =>
  rbind (tbcast (fun _ b => b) l s) (fun s' =>
  Ok {| loc := l'; scale := s' |})).

(** [torch.distributions.kl_divergence] on two normals, entry by entry:
    [0.5 * (var_ratio + t1 - 1 - var_ratio.log())]. *)
Definition kl (p q : Normal) : result tensor :=
  rbind (tdiv (scale p) (scale q)) (fun sr =>
  let var_ratio := tmap (fun v => v * v) sr in
  rbind (tsub (loc p) (loc q)) (fun d =>
  rbind (tdiv d (scale q)) (fun dq =>
  let t1 := tmap (fun v => v * v) dq in
  rbind (tadd var_ratio t1) (fun s =>
  rbind (tsub (tmap (fun v => v - 1) s) (tlog var_ratio)) (fun u =>
  Ok (tmap (fun v => 0.5 * v) u)))))).

(** One entry of [kl(Normal(m, sqrt(v)), Normal(0, 1))], as [kl] computes
    it from the posterior mean [m] and variance [v]. *)
Definition kl_prior_entry (m v : R) : R :=
  0.5 * (sqrt v / 1 * (sqrt v / 1) + (m - 0) / 1 * ((m - 0) / 1) - 1
         - ln (sqrt v / 1 * (sqrt v / 1))).

(** ** The model *)

Section Model.

(** State of torch's random generator. *)
Variable G : Type.

Definition M (A : Type) : Type := G -> result (A * G).

Definition ret {A} (a : A) : M A := fun g => Ok (a, g).

Definition bind {A B} (c : M A) (k : A -> M B) : M B :=
  fun g => match c g with
           | Ok (a, g') => k a g'
           | Raise e => Raise e
           end.

Definition raise {A} (e : exc) : M A := fun _ => Raise e.

Definition lift {A} (r : result A) : M A :=
  fun g => match r with Ok a => Ok (a, g) | Raise e => Raise e end.

Notation "x <- c ;; k" := (bind c (fun x => k))
  (at level 61, c at next level, right associativity).
Notation "' p <- c ;; k" := (bind c (fun x => match x with p => k end))
  (at level 61, p pattern, c at next level, right associativity).

(** The sub-network classes of [scvi.models.modules]: black boxes.  The
    decoder hands back the raw dispersion only when it computes one. *)
Definition z_net : Type := tensor -> option Z -> M (tensor * tensor * tensor).
Definition l_net : Type := tensor -> M (tensor * tensor * tensor).
Definition decoder_net : Type :=
  tensor -> option Z -> tensor -> string -> option itensor -> option itensor
  -> M (tensor * option tensor * tensor * tensor).

(** An owned parameter is a 1-D or a 2-D tensor. *)
Inductive param : Type :=
| Vec (v : vec)
| Mat (w : tensor).

(** The likelihoods of [scvi.models.log_likelihood] and torch's Poisson
    log-probability: pure functions, one value per cell for the first
    two, one per entry for the third. *)
Variable log_zinb_positive : tensor -> tensor -> tensor -> tensor -> result vec.
Variable log_nb_positive : tensor -> tensor -> tensor -> result vec.
Variable Poisson_log_prob : tensor -> tensor -> result tensor.

Record JVAE : Type := {
  n_input_list : list nat;
  total_genes : nat;
  indices_mappings : list index_mapping;
  reconstruction_losses : list string;
  model_library_bools : list bool;
  model_type : string;
  n_latent : nat;
  n_batch : nat;
  n_labels : nat;
  dispersion : string;
  log_variational : bool;
  z_encoder : z_net;
  l_encoders : list (option l_net);
  decoder : decoder_net;
  px_r : option param
}.

Section Init.

(** The constructors of the sub-networks: each call returns a network,
    with the weights it holds, or raises. *)
Variable MultiEncoder :
  forall (n_heads : nat) (n_input_list : list nat)
         (n_output n_hidden n_layers_individual n_layers_shared : nat)
         (dropout_rate : R) (model_type : string), result z_net.
Variable Encoder :
  forall (n_input n_output n_layers : nat) (dropout_rate : R), result l_net.
Variable MultiDecoder :
  forall (n_input n_output n_hidden_conditioned n_hidden_shared
          n_layers_conditioned n_layers_shared : nat)
         (n_cat_list : list nat) (dropout_rate : R), result decoder_net.
(** The values held by the dispersion parameter, by position. *)
Variable randn : nat -> nat -> R.

Definition randn1 (n : nat) : vec := map (fun g => randn g 0) (seq 0 n).
Definition randn2 (n k : nat) : tensor :=
  map (fun g => map (randn g) (seq 0 k)) (seq 0 n).

Definition JVAE_init
    (dim_input_list : list nat) (total_genes : nat)
    (indices_mappings : list index_mapping)
    (reconstruction_losses : list string)
    (model_library_bools : list bool)
    (n_latent n_layers_encoder_individual n_layers_encoder_shared
     dim_hidden_encoder n_layers_decoder_individual n_layers_decoder_shared
     dim_hidden_decoder_individual dim_hidden_decoder_shared : nat)
    (dropout_rate_encoder dropout_rate_decoder : R)
    (n_batch n_labels : nat) (dispersion : string)
    (log_variational : bool) (model_type : string) : result JVAE :=
  rbind
    (MultiEncoder (length dim_input_list) dim_input_list n_latent
       dim_hidden_encoder n_layers_encoder_individual
       n_layers_encoder_shared dropout_rate_encoder model_type)
    (fun z_encoder =>
  rbind
    (mapM (fun i =>
             rbind (index model_library_bools (Some (Z.of_nat i))) (fun b =>
             if b : bool then
               rbind (index dim_input_list (Some (Z.of_nat i))) (fun n =>
               rbind (Encoder n 1 1 dropout_rate_encoder) (fun l_encoder =>
               Ok (Some l_encoder)))
             else Ok None))
          (seq 0 (length dim_input_list)))
    (fun l_encoders =>
  rbind
    (MultiDecoder n_latent total_genes dim_hidden_decoder_individual
       dim_hidden_decoder_shared n_layers_decoder_individual
       n_layers_decoder_shared [n_batch] dropout_rate_decoder)
    (fun decoder =>
  Ok {| n_input_list := dim_input_list;
        total_genes := total_genes;
        indices_mappings := indices_mappings;
        reconstruction_losses := reconstruction_losses;
        model_library_bools := model_library_bools;
        model_type := model_type;
        n_latent := n_latent;
        n_batch := n_batch;
        n_labels := n_labels;
        dispersion := dispersion;
        log_variational := log_variational;
        z_encoder := z_encoder;
        l_encoders := l_encoders;
        decoder := decoder;
        px_r :=
          if dispersion =? "gene" then Some (Vec (randn1 total_genes))
          else if dispersion =? "gene-batch" then Some (Mat (randn2 total_genes n_batch))
          else if dispersion =? "gene-label" then Some (Mat (randn2 total_genes n_labels))
          else None |}))).

End Init.

Section Methods.

Variable self : JVAE.

(** Access to [self.px_r].  [__init__] stores a 1-D tensor under "gene",
    a 2-D tensor under "gene-batch" and "gene-label", and nothing
    otherwise; the other combinations do not arise from [JVAE_init]
    and are not followed into torch here. *)
Definition px_r_matrix : result tensor :=
  match px_r self with
  | Some (Mat w) => Ok w
  | Some (Vec _) => Raise RuntimeError
  | None => Raise AttributeError
  end.

(** [self.px_r.view(1, self.px_r.size(0))] *)
Definition px_r_row : result tensor :=
  match px_r self with
  | Some (Vec v) => Ok [v]
  | Some (Mat _) => Raise RuntimeError
  | None => Raise AttributeError
  end.

(** An index tensor that must not be [None]. *)
Definition the_index (t : option itensor) : result itensor :=
  match t with
  | Some t => Ok t
  | None => Raise AttributeError
  end.

(** An optional tensor passed where torch needs a tensor. *)
Definition the_tensor (t : option tensor) : result tensor :=
  match t with
  | Some t => Ok t
  | None => Raise TypeError
  end.

Definition encode (x : tensor) (mode : option Z)
  : M (tensor * tensor * tensor * option tensor * option tensor * tensor) :=
  let x_ := if log_variational self then tmap (fun v => ln (1 + v)) x else x in
  '(qz_m, qz_v, z) <- z_encoder self x_ mode ;;
  flag <- lift (index (model_library_bools self) mode) ;;
  if flag : bool then
    enc <- lift (index (l_encoders self) mode) ;;
    match enc with
    | Some l_encoder =>
        '(ql_m, ql_v, library) <- l_encoder x_ ;;
        ret (qz_m, qz_v, z, Some ql_m, Some ql_v, library)
    | None => raise TypeError
    end
  else
    let library := view_col (map ln (sum_dim1 x)) in
    ret (qz_m, qz_v, z, None, None, library).

(** The dispersion branch of [decode], before the exponential. *)
Definition resolve_px_r (px_r_raw : option tensor) (batch_index y : option itensor)
  : result tensor :=
  if dispersion self =? "gene-label" then
    rbind (the_index y) (fun y =>
    rbind (one_hot y (n_labels self)) (fun oh =>
    rbind px_r_matrix (fun w => F_linear oh w)))
  else if dispersion self =? "gene-batch" then
    rbind (the_index batch_index) (fun b =>
    rbind (one_hot b (n_batch self)) (fun oh =>
    rbind px_r_matrix (fun w => F_linear oh w)))
  else if dispersion self =? "gene" then px_r_row
  else the_tensor px_r_raw.

Definition decode (z : tensor) (mode : option Z) (library : tensor)
           (batch_index y : option itensor)
  : M (tensor * tensor * tensor * tensor) :=
  '(px_scale, px_r, px_rate, px_dropout) <-
    decoder self z mode library (dispersion self) batch_index y ;;
  px_r <- lift (resolve_px_r px_r batch_index y) ;;
  let px_r := texp px_r in
  mapping <- lift (index (indices_mappings self) mode) ;;
  gathered <- lift (gather px_scale mapping) ;;
  px_scale <- lift (tdiv px_scale (view_col (sum_dim1 gathered))) ;;
  px_rate <- lift (tmul px_scale (texp library)) ;;
  ret (px_scale, px_r, px_rate, px_dropout).

Definition reconstruction_loss (x px_rate px_r px_dropout : tensor)
           (mode : option Z) : result (option vec) :=
  rbind (index (reconstruction_losses self) mode) (fun kind =>
  if kind =? "zinb" then
    rmap (fun l => Some (vneg l)) (log_zinb_positive x px_rate px_r px_dropout)
  else if kind =? "nb" then
    rmap (fun l => Some (vneg l)) (log_nb_positive x px_rate px_r)
  else if kind =? "poisson" then
    rmap (fun l => Some (vneg (sum_dim1 l))) (Poisson_log_prob px_rate x)
  else Ok None).

Definition sample_from_posterior_z (x : tensor) (mode : option Z)
           (deterministic : bool) : M tensor :=
  mode <- match mode with
          | None =>
              if (length (n_input_list self) =? 1)%nat then ret (Some 0%Z)
              else raise (Exception "Must provide a mode when having multiple datasets")
          | Some _ => ret mode
          end ;;
  '(qz_m, _, z, _, _, _) <- encode x mode ;;
  ret (if deterministic then qz_m else z).

Definition sample_from_posterior_l (x : tensor) (mode : option Z)
           (deterministic : bool) : M tensor :=
  '(_, _, _, ql_m, _, library) <- encode x mode ;;
  ret (match ql_m with
       | Some ql_m => if deterministic then ql_m else library
       | None => library
       end).

Definition sample_scale (x : tensor) (mode : option Z)
           (batch_index y : option itensor) (deterministic : bool)
           (decode_mode : option Z) : M tensor :=
  let decode_mode := match decode_mode with None => mode | Some _ => decode_mode end in
  '(qz_m, qz_v, z, ql_m, ql_v, library) <- encode x mode ;;
  let z := if deterministic then qz_m else z in
  let library :=
    if deterministic then match ql_m with Some ql_m => ql_m | None => library end
    else library in
  '(px_scale, px_r, px_rate, px_dropout) <-
    decode z decode_mode library batch_index y ;;
  ret px_scale.

Definition sample_rate (x : tensor) (mode : option Z)
           (batch_index y : option itensor) (deterministic : bool)
           (decode_mode : option Z) : M tensor :=
  let decode_mode := match decode_mode with None => mode | Some _ => decode_mode end in
  '(qz_m, qz_v, z, ql_m, ql_v, library) <- encode x mode ;;
  let z := if deterministic then qz_m else z in
  let library :=
    if deterministic then match ql_m with Some ql_m => ql_m | None => library end
    else library in
  '(px_scale, px_r, px_rate, px_dropout) <-
    decode z decode_mode library batch_index y ;;
  ret px_rate.

(** [get_sample_rate(self, x, batch_index, *_, **__)]: the extra
    positional and keyword arguments are values of any type [V]. *)
Definition get_sample_rate (V : Type) (x : tensor) (batch_index : option itensor)
           (_ : list V) (__ : list (string * V)) : M tensor :=
  sample_rate x (Some 0%Z) batch_index None false None.

(** [kl(Normal(m, torch.sqrt(v)), Normal(m', s')).sum(dim=1)] *)
Definition kl_sum (m s m' s' : tensor) : result vec :=
  rbind (mkNormal m s) (fun p =>
  rbind (mkNormal m' s') (fun q =>
  rmap sum_dim1 (kl p q))).

Definition forward (x local_l_mean local_l_var : tensor)
           (batch_index y : option itensor) (mode : option Z)
  : M (option vec * vec) :=
  mode <- match mode with
          | None =>
              if (length (n_input_list self) =? 1)%nat then ret (Some 0%Z)
              else raise (Exception "Must provide a mode")
          | Some _ => ret mode
          end ;;
  '(qz_m, qz_v, z, ql_m, ql_v, library) <- encode x mode ;;
  '(px_scale, px_r, px_rate, px_dropout) <- decode z mode library batch_index y ;;
  mapping_indices <- lift (index (indices_mappings self) mode) ;;
  g_rate <- lift (gather px_rate mapping_indices) ;;
  g_r <- lift (gather px_r mapping_indices) ;;
  g_dropout <- lift (gather px_dropout mapping_indices) ;;
  reconstruction_loss <- lift (reconstruction_loss x g_rate g_r g_dropout mode) ;;
  let mean := zeros_like qz_m in
  let scale := ones_like qz_v in
  kl_divergence_z <- lift (kl_sum qz_m (tsqrt qz_v) mean scale) ;;
  flag <- lift (index (model_library_bools self) mode) ;;
  kl_divergence_l <-
    (if flag : bool then
       lift (rbind (the_tensor ql_m) (fun ql_m =>
             rbind (the_tensor ql_v) (fun ql_v =>
             kl_sum ql_m (tsqrt ql_v) local_l_mean (tsqrt local_l_var))))
     else ret (vzeros_like kl_divergence_z)) ;;
  total <- lift (vadd kl_divergence_l kl_divergence_z) ;;
  ret (reconstruction_loss, total).

(** The head of [forward]: mode resolution, [encode], [decode]. *)
Definition forward_decode (x : tensor) (batch_index y : option itensor)
           (mode : option Z)
  : M (option Z
       * (tensor * tensor * tensor * option tensor * option tensor * tensor)
       * (tensor * tensor * tensor * tensor)) :=
  mode <- match mode with
          | None =>
              if (length (n_input_list self) =? 1)%nat then ret (Some 0%Z)
              else raise (Exception "Must provide a mode")
          | Some _ => ret mode
          end ;;
  enc <- encode x mode ;;
  let '(qz_m, qz_v, z, ql_m, ql_v, library) := enc in
  dec <- decode z mode library batch_index y ;;
  ret (mode, enc, dec).

(** The same model around another decoder network. *)
Definition with_decoder (d : decoder_net) : JVAE :=
  {| n_input_list := n_input_list self;
     total_genes := total_genes self;
     indices_mappings := indices_mappings self;
     reconstruction_losses := reconstruction_losses self;
     model_library_bools := model_library_bools self;
     model_type := model_type self;
     n_latent := n_latent self;
     n_batch := n_batch self;
     n_labels := n_labels self;
     dispersion := dispersion self;
     log_variational := log_variational self;
     z_encoder := z_encoder self;
     l_encoders := l_encoders self;
     decoder := d;
     px_r := px_r self |}.

End Methods.

End Model.

(** ** A small instance

    The generator state is a counter and a draw adds the counter's value to
    the mean; the decoder's raw scale in column [k] is the first latent
    coordinate plus [k]. *)

Module Demo.

Definition noise (g : nat) : R := IZR (Z.of_nat g).

Definition MultiEncoder (n_heads : nat) (n_input_list : list nat)
           (n_output n_hidden n_layers_individual n_layers_shared : nat)
           (dropout_rate : R) (model_type : string) : z_net nat :=
  fun x head g =>
    match head with
    | None => Raise TypeError
    | Some _ => Ok ((x, ones_like x, tmap (fun v => v + noise g) x), S g)
    end.

Definition Encoder (n_input n_output n_layers : nat) (dropout_rate : R)
  : l_net nat :=
  fun x g =>
    let m := view_col (sum_dim1 x) in
    Ok ((m, ones_like m, tmap (fun v => v + noise g) m), S g).

Definition MultiDecoder
           (n_input n_output n_hidden_conditioned n_hidden_shared
            n_layers_conditioned n_layers_shared : nat)
           (n_cat_list : list nat) (dropout_rate : R) : decoder_net nat :=
  fun z head library dispersion batch_index y g =>
    let columns := map (fun k => IZR (Z.of_nat k)) (seq 0 n_output) in
    let scale := map (fun row => map (fun c => hd 1 row + c) columns) z in
    let raw_r := map (fun row => map (fun c => hd 0 row * c) columns) z in
    Ok ((scale,
         (if dispersion =? "gene-cell" then Some raw_r else None),
         scale, zeros_like scale), g).

Definition randn (g k : nat) : R := IZR (Z.of_nat g) + IZR (Z.of_nat k).

Definition model (dims : list nat) (total : nat)
           (mappings : list index_mapping) (losses : list string)
           (bools : list bool) (dispersion : string) (log_variational : bool)
  : result (JVAE nat) :=
  JVAE_init
    (fun n_heads n_input_list n_output n_hidden n_layers_individual
         n_layers_shared dropout_rate model_type =>
       Ok (MultiEncoder n_heads n_input_list n_output n_hidden
             n_layers_individual n_layers_shared dropout_rate model_type))
    (fun n_input n_output n_layers dropout_rate =>
       Ok (Encoder n_input n_output n_layers dropout_rate))
    (fun n_input n_output n_hidden_conditioned n_hidden_shared
         n_layers_conditioned n_layers_shared n_cat_list dropout_rate =>
       Ok (MultiDecoder n_input n_output n_hidden_conditioned n_hidden_shared
             n_layers_conditioned n_layers_shared n_cat_list dropout_rate))
    randn
    dims total mappings losses bools
    3 1 1 128 0 0 32 128 0.1 0.3 2 2 dispersion log_variational "gaussian".

(** Two datasets with disjoint gene panels in a vocabulary of 7 genes. *)
Definition two_panels (dispersion : string) (log_variational : bool)
  : result (JVAE nat) :=
  model [3; 4]%nat 7 [Indices [0; 1; 2]%Z; Indices [3; 4; 5; 6]%Z]
        ["poisson"; "nb"] [false; true] dispersion log_variational.

(** One dataset of 3 genes. *)
Definition one_panel (loss : string) : result (JVAE nat) :=
  model [3]%nat 3 [Slice None None None] [loss] [false] "gene" true.

(** The model a successful construction returns; [blank] stands for a
    construction that raised. *)
Definition blank : JVAE nat :=
  {| n_input_list := []; total_genes := 0; indices_mappings := [];
     reconstruction_losses := []; model_library_bools := [];
     model_type := ""; n_latent := 0; n_batch := 0; n_labels := 0;
     dispersion := ""; log_variational := false;
     z_encoder := fun _ _ _ => Raise RuntimeError;
     l_encoders := [];
     decoder := fun _ _ _ _ _ _ _ => Raise RuntimeError;
     px_r := None |}.

Definition built (r : result (JVAE nat)) : JVAE nat :=
  match r with
  | Ok m => m
  | Raise _ => blank
  end.

Definition joint : JVAE nat := built (two_panels "gene-batch" true).
Definition raw_input : JVAE nat := built (two_panels "gene-batch" false).
Definition single : JVAE nat := built (one_panel "poisson").
Definition unknown_loss : JVAE nat := built (one_panel "gaussian").
(** A mapping that names gene 7 in a vocabulary of 3 genes. *)
Definition misplaced : JVAE nat :=
  built (model [3]%nat 3 [Indices [0; 1; 7]%Z] ["poisson"] [false] "gene" true).

(** A list mapping with an entry one past the largest int64. *)
Definition oversized : JVAE nat :=
  built (model [3]%nat 3 [Indices [0; 1; 9223372036854775808]%Z] ["poisson"]
               [false] "gene" true).
(** One dataset that observes no gene of the vocabulary. *)
Definition empty_panel : JVAE nat :=
  built (model [0]%nat 3 [Indices []] ["poisson"] [false] "gene" true).

(** The joint model around a decoder with positive scales. *)
Definition softmax_like : decoder_net nat :=
  fun z head library dispersion batch_index y g =>
    let columns := map (fun k => IZR (Z.of_nat k)) (seq 0 7) in
    let scale := map (fun row => map (fun c => exp (hd 0 row * c)) columns) z in
    Ok ((scale, None, scale, zeros_like scale), g).

Definition positive : JVAE nat := with_decoder joint softmax_like.

(** The decoder of [joint] with another raw rate and other dropout logits
    in the columns 3 to 6. *)
Definition noisy_decoder : decoder_net nat :=
  fun z head library dispersion batch_index y g =>
    match MultiDecoder 3 7 32 128 0 0 [2%nat] 0.3
                       z head library dispersion batch_index y g with
    | Ok ((s, r, rt, dp), g') =>
        Ok ((s, r, zeros_like rt, map (fun _ => [0; 0; 0; 1; 1; 1; 1]) dp), g')
    | Raise e => Raise e
    end.

(** Stand-ins for the likelihoods. *)
Definition log_zinb_positive (x px_rate px_r px_dropout : tensor) : result vec :=
  rmap sum_dim1 (tsub px_dropout px_rate).
Definition log_nb_positive (x px_rate px_r : tensor) : result vec :=
  rmap sum_dim1 (tsub px_r px_rate).
Definition Poisson_log_prob (rate x : tensor) : result tensor :=
  rbind (tmul x (tlog rate)) (fun a => tsub a rate).

End Demo.

(** ** Lemmas on results, lists and tensors *)

Lemma rbind_Ok {A B} (r : result A) (k : A -> result B) (b : B) :
  rbind r k = Ok b -> exists a, r = Ok a /\ k a = Ok b.
Proof.
  destruct r as [a|e]; simpl; intros H; [eauto | discriminate].
Qed.

Lemma rmap_Ok {A B} (f : A -> B) (r : result A) (b : B) :
  rmap f r = Ok b -> exists a, r = Ok a /\ b = f a.
Proof.
  destruct r as [a|e]; simpl; intros H; [|discriminate].
  injection H as <-. eauto.
Qed.

Lemma mapM_pure {A B} (f : A -> B) (l : list A) :
  mapM (fun a => Ok (f a)) l = Ok (map f l).
Proof.
  induction l as [|a l IH]; simpl; [reflexivity|].
  rewrite IH. reflexivity.
Qed.

Lemma mapM_length {A B} (f : A -> result B) (l : list A) (l' : list B) :
  mapM f l = Ok l' -> length l' = length l.
Proof.
  revert l'. induction l as [|a l IH]; simpl; intros l' H.
  - injection H as <-. reflexivity.
  - apply rbind_Ok in H as (b & _ & H).
    apply rbind_Ok in H as (bs & Hbs & H).
    injection H as <-. simpl. f_equal. auto.
Qed.

Lemma mapM_Forall2 {A B} (f : A -> result B) (l : list A) (l' : list B) :
  mapM f l = Ok l' <-> Forall2 (fun a b => f a = Ok b) l l'.
Proof.
  split.
  - revert l'. induction l as [|a l IH]; simpl; intros l' H.
    + injection H as <-. constructor.
    + apply rbind_Ok in H as (b & Hb & H).
      apply rbind_Ok in H as (bs & Hbs & H).
      injection H as <-. constructor; auto.
  - induction 1 as [|a b l l' Hab _ IH]; simpl; [reflexivity|].
    rewrite Hab. simpl. rewrite IH. reflexivity.
Qed.

Lemma mapM_nth_error {A B} (f : A -> result B) (l : list A) (l' : list B) i a :
  mapM f l = Ok l' -> nth_error l i = Some a ->
  exists b, nth_error l' i = Some b /\ f a = Ok b.
Proof.
  rewrite mapM_Forall2. intros H. revert i.
  induction H as [|a0 b0 l l' Hab _ IH]; intros [|i]; simpl; try discriminate.
  - intros [= ->]. eauto.
  - apply IH.
Qed.

Lemma rsum_map_div (s : R) (r : list R) :
  rsum (map (fun a => a / s) r) = rsum r / s.
Proof.
  induction r as [|a r IH]; simpl.
  - unfold Rdiv. rewrite Rmult_0_l. reflexivity.
  - rewrite IH. unfold Rdiv. rewrite Rmult_plus_distr_r. reflexivity.
Qed.

Lemma rsum_renormalized (r : list R) :
  rsum r <> 0 -> rsum (map (fun a => a / rsum r) r) = 1.
Proof.
  intros H. rewrite rsum_map_div. unfold Rdiv. apply Rinv_r. exact H.
Qed.

Lemma rsum_pos (r : list R) :
  r <> [] -> Forall (fun a => 0 < a) r -> 0 < rsum r.
Proof.
  intros Hne H. induction H as [|a r Ha Hr IH]; [congruence|].
  simpl. destruct r as [|b r].
  - simpl. lra.
  - assert (0 < rsum (b :: r)) by (apply IH; discriminate). lra.
Qed.

Lemma vbcast_singleton (f : R -> R -> R) (row : list R) (s : R) :
  vbcast f row [s] = Ok (map (fun a => f a s) row).
Proof.
  unfold vbcast, bcast. destruct row as [|a [|b row]]; apply mapM_pure.
Qed.

Lemma tbcast_view_col (f : R -> R -> R) (t : tensor) (v : vec) :
  length t = length v ->
  tbcast f t (view_col v) = Ok (scale_rows f t v).
Proof.
  intros Hlen. unfold scale_rows, tbcast, bcast.
  assert (Hgen : mapM (fun ab => vbcast f (fst ab) (snd ab)) (combine t (view_col v))
                 = Ok (map (fun rs => map (fun a => f a (snd rs)) (fst rs)) (combine t v))).
  { clear Hlen. revert v. induction t as [|row t IH]; intros [|s v]; simpl; try reflexivity.
    rewrite vbcast_singleton. simpl. unfold view_col in IH. rewrite IH. reflexivity. }
  destruct v as [|s [|s' v]].
  - destruct t; [|discriminate]. reflexivity.
  - destruct t as [|row [|row' t]]; try discriminate. simpl.
    rewrite vbcast_singleton. reflexivity.
  - destruct t as [|row [|row' t]]; try discriminate.
    cbn [view_col map]. cbn [view_col map] in Hgen.
    match goal with
    | |- context [(?a =? ?b)%nat] => replace (a =? b)%nat with true
    end; [exact Hgen|].
    symmetry. apply Nat.eqb_eq. simpl. simpl in Hlen. rewrite length_map. exact Hlen.
Qed.

Lemma tdiv_view_col (t : tensor) (v : vec) :
  length t = length v -> tdiv t (view_col v) = Ok (divide_rows t v).
Proof. apply tbcast_view_col. Qed.

Lemma positions_bound n idx ps :
  positions n idx = Ok ps -> Forall (fun p => (p < n)%nat) ps.
Proof.
  destruct idx as [l|start stop step]; simpl.
  - rewrite mapM_Forall2. induction 1 as [|i p l ps Hip _ IH]; constructor; auto.
    unfold fancy_position in Hip.
    destruct ((0 <=? _) && _)%Z eqn:E; [|discriminate].
    injection Hip as <-. apply andb_prop in E as [E1 E2].
    apply Z.leb_le in E1. apply Z.ltb_lt in E2. lia.
  - unfold slice_positions.
    destruct (_ <=? 0)%Z eqn:Est; [discriminate|]. apply Z.leb_gt in Est.
    intros [= <-]. apply Forall_forall. intros p Hp.
    apply in_map_iff in Hp as (k & <- & Hk). apply in_seq in Hk.
    set (st := match step with Some s => s | None => 1%Z end) in *.
    set (lo := match start with Some a => clamp_bound (Z.of_nat n) a | None => 0%Z end) in *.
    set (hi0 := match stop with Some b => clamp_bound (Z.of_nat n) b | None => Z.of_nat n end) in *.
    set (hi := if (hi0 <? lo)%Z then lo else hi0) in *.
    assert (Hlo : (0 <= lo <= Z.of_nat n)%Z).
    { unfold lo, clamp_bound. destruct start as [a|]; [|lia].
      repeat match goal with |- context [(?a <? ?b)%Z] => destruct (Z.ltb_spec a b) end; lia. }
    assert (Hhi0 : (0 <= hi0 <= Z.of_nat n)%Z).
    { unfold hi0, clamp_bound. destruct stop as [b|]; [|lia].
      repeat match goal with |- context [(?a <? ?b)%Z] => destruct (Z.ltb_spec a b) end; lia. }
    assert (Hhi : (lo <= hi <= Z.of_nat n)%Z).
    { unfold hi. destruct (Z.ltb_spec hi0 lo); lia. }
    assert (Hk' : (Z.of_nat k < (hi - lo + st - 1) / st)%Z).
    { destruct Hk as [_ Hk]. simpl in Hk. lia. }
    assert (Hmul : (st * ((hi - lo + st - 1) / st) <= hi - lo + st - 1)%Z)
      by (apply Z.mul_div_le; lia).
    assert ((lo + Z.of_nat k * st < hi)%Z) by nia.
    lia.
Qed.

Lemma gather_Ok (t gathered : tensor) idx :
  gather t idx = Ok gathered ->
  int64_index idx = true /\ mapM (gather_row idx) t = Ok gathered.
Proof.
  unfold gather. destruct (int64_index idx); [auto | discriminate].
Qed.

Lemma gather_length (t gathered : tensor) idx :
  gather t idx = Ok gathered -> length gathered = length t.
Proof.
  intros H. apply gather_Ok in H as [_ H]. eapply mapM_length. exact H.
Qed.

Lemma gather_row_map (f : R -> R) idx row grow :
  f 0 = 0 ->
  gather_row idx row = Ok grow ->
  gather_row idx (map f row) = Ok (map f grow).
Proof.
  intros Hf. unfold gather_row. rewrite length_map.
  destruct (positions (length row) idx) as [ps|e]; simpl; [|discriminate].
  intros [= <-]. f_equal. rewrite map_map. apply map_ext.
  intros p. rewrite <- Hf at 1. apply map_nth.
Qed.

Lemma gather_divide_rows (t gathered : tensor) idx :
  gather t idx = Ok gathered ->
  gather (divide_rows t (sum_dim1 gathered)) idx
  = Ok (map (fun row => map (fun a => a / rsum row) row) gathered).
Proof.
  unfold gather, divide_rows, scale_rows, sum_dim1.
  destruct (int64_index idx); [|discriminate]. intros H. apply mapM_Forall2 in H.
  induction H as [|row grow t gathered Hrow _ IH]; simpl; [reflexivity|].
  rewrite (@gather_row_map (fun a => a / rsum grow) idx row grow).
  - simpl. rewrite IH. reflexivity.
  - unfold Rdiv. apply Rmult_0_l.
  - exact Hrow.
Qed.

(** A raw scale with positive entries, as a softmax produces, has a
    non-zero sum over any non-empty panel. *)
Lemma gather_positive_nonzero (t gathered : tensor) idx :
  Forall (Forall (fun a => 0 < a)) t ->
  gather t idx = Ok gathered ->
  Forall (fun row => row <> []) gathered ->
  Forall (fun row => rsum row <> 0) gathered.
Proof.
  unfold gather. destruct (int64_index idx); [|discriminate].
  intros Hpos Hg. apply mapM_Forall2 in Hg.
  induction Hg as [|row grow t gathered Hrow _ IH]; intros Hne; constructor.
  - inversion Hpos as [|? ? Hrowpos _]; subst.
    inversion Hne as [|? ? Hgrow _]; subst.
    assert (0 < rsum grow); [|lra].
    apply rsum_pos; [exact Hgrow|].
    unfold gather_row in Hrow. apply rmap_Ok in Hrow as (ps & Hps & ->).
    apply positions_bound in Hps.
    apply Forall_forall. intros a Ha.
    apply in_map_iff in Ha as (p & <- & Hp).
    rewrite Forall_forall in Hps, Hrowpos.
    apply Hrowpos, nth_In, Hps, Hp.
  - apply IH.
    + inversion Hpos; assumption.
    + inversion Hne; assumption.
Qed.

(** ** Running a method *)

Section Run.

Variable G : Type.

Lemma bind_Ok {A B} (c : M G A) (k : A -> M G B) g b g' :
  bind c k g = Ok (b, g') ->
  exists a g1, c g = Ok (a, g1) /\ k a g1 = Ok (b, g').
Proof.
  unfold bind. destruct (c g) as [[a g1]|e]; [eauto | discriminate].
Qed.

Lemma lift_Ok {A} (r : result A) (g : G) a g' :
  lift r g = Ok (a, g') -> r = Ok a /\ g' = g.
Proof.
  unfold lift. destruct r; [|discriminate]. intros [= -> ->]. auto.
Qed.

Lemma ret_Ok {A} (a : A) (g : G) b g' :
  ret a g = Ok (b, g') -> b = a /\ g' = g.
Proof. unfold ret. intros [= -> ->]. auto. Qed.

Lemma raise_Ok {A} e (g : G) (b : A) g' : raise e g = Ok (b, g') -> False.
Proof. discriminate. Qed.

End Run.

(** Takes a successful run apart, one bind at a time. *)
Ltac run_inv H :=
  lazymatch type of H with
  | bind _ _ _ = Ok _ =>
      let a := fresh "a" in
      let g := fresh "g" in
      let H1 := fresh "Hrun" in
      apply bind_Ok in H as (a & g & H1 & H);
      try (apply lift_Ok in H1 as [H1 ->])
  | ret _ _ = Ok _ => apply ret_Ok in H as [? ?]
  | lift _ _ = Ok _ => apply lift_Ok in H as [H ?]
  | raise _ _ = Ok _ => destruct (raise_Ok H)
  end.

(** ** The constructor *)

Lemma index_position {A} (l : list A) (i : Z) :
  index l (Some i)
  = rbind (fancy_position (length l) i)
          (fun j => match nth_error l j with
                    | Some a => Ok a
                    | None => Raise IndexError
                    end).
Proof.
  unfold index, fancy_position.
  destruct ((0 <=? _) && _)%Z; reflexivity.
Qed.

Lemma index_nat {A} (l : list A) (j : nat) (a : A) :
  nth_error l j = Some a -> index l (Some (Z.of_nat j)) = Ok a.
Proof.
  intros Hj. assert (Hlt : (j < length l)%nat) by (apply nth_error_Some; congruence).
  unfold index.
  destruct (Z.ltb_spec (Z.of_nat j) 0) as [Hneg|_]; [lia|].
  destruct (Z.leb_spec 0 (Z.of_nat j)) as [_|Hneg]; [|lia].
  destruct (Z.ltb_spec (Z.of_nat j) (Z.of_nat (length l))) as [_|Hge]; [|lia].
  simpl. rewrite Nat2Z.id, Hj. reflexivity.
Qed.

Section InitProperties.

Variable G : Type.
Variable MultiEncoder :
  nat -> list nat -> nat -> nat -> nat -> nat -> R -> string -> result (z_net G).
Variable Encoder : nat -> nat -> nat -> R -> result (l_net G).
Variable MultiDecoder :
  nat -> nat -> nat -> nat -> nat -> nat -> list nat -> R
  -> result (decoder_net G).
Variable randn : nat -> nat -> R.

Variable dim_input_list : list nat.
Variable total : nat.
Variable mappings : list index_mapping.
Variable losses : list string.
Variable bools : list bool.
Variables n_latent n_layers_encoder_individual n_layers_encoder_shared
          dim_hidden_encoder n_layers_decoder_individual
          n_layers_decoder_shared dim_hidden_decoder_individual
          dim_hidden_decoder_shared : nat.
Variables dropout_rate_encoder dropout_rate_decoder : R.
Variables batches labels : nat.
Variable disp : string.
Variable log_var : bool.
Variable mtype : string.
Variable self : JVAE G.

Hypothesis Hinit :
  JVAE_init MultiEncoder Encoder MultiDecoder randn
            dim_input_list total mappings losses bools
            n_latent n_layers_encoder_individual n_layers_encoder_shared
            dim_hidden_encoder n_layers_decoder_individual
            n_layers_decoder_shared dim_hidden_decoder_individual
            dim_hidden_decoder_shared dropout_rate_encoder dropout_rate_decoder
            batches labels disp log_var mtype = Ok self.

(** [__init__] stores its arguments. *)
Lemma init_attributes :
  n_input_list self = dim_input_list
  /\ total_genes self = total
  /\ indices_mappings self = mappings
  /\ reconstruction_losses self = losses
  /\ model_library_bools self = bools
  /\ n_batch self = batches
  /\ n_labels self = labels
  /\ dispersion self = disp
  /\ log_variational self = log_var.
Proof.
  unfold JVAE_init in Hinit.
  apply rbind_Ok in Hinit as (zenc & _ & Hinit).
  apply rbind_Ok in Hinit as (ls & _ & Hinit).
  apply rbind_Ok in Hinit as (dec & _ & Hself).
  injection Hself as <-. repeat split.
Qed.

(** The owned dispersion parameter has the shape its mode asks for, so
    [px_r_row] and [px_r_matrix] find what they look for. *)
Lemma init_px_r :
  (dispersion self = "gene" ->
   px_r self = Some (Vec (randn1 randn (total_genes self)))
   /\ length (randn1 randn (total_genes self)) = total_genes self)
  /\ (dispersion self = "gene-batch" ->
      px_r self = Some (Mat (randn2 randn (total_genes self) (n_batch self)))
      /\ length (randn2 randn (total_genes self) (n_batch self)) = total_genes self
      /\ Forall (fun row => length row = n_batch self)
                (randn2 randn (total_genes self) (n_batch self)))
  /\ (dispersion self = "gene-label" ->
      px_r self = Some (Mat (randn2 randn (total_genes self) (n_labels self)))
      /\ length (randn2 randn (total_genes self) (n_labels self)) = total_genes self
      /\ Forall (fun row => length row = n_labels self)
                (randn2 randn (total_genes self) (n_labels self)))
  /\ (dispersion self <> "gene" -> dispersion self <> "gene-batch" ->
      dispersion self <> "gene-label" -> px_r self = None).
Proof.
  assert (Hshape : forall n k,
             length (randn2 randn n k) = n
             /\ Forall (fun row => length row = k) (randn2 randn n k)).
  { intros n k. unfold randn2. split.
    - rewrite length_map, length_seq. reflexivity.
    - apply Forall_forall. intros row Hrow.
      apply in_map_iff in Hrow as (g & <- & _).
      rewrite length_map, length_seq. reflexivity. }
  unfold JVAE_init in Hinit.
  apply rbind_Ok in Hinit as (zenc & _ & Hinit).
  apply rbind_Ok in Hinit as (ls & _ & Hinit).
  apply rbind_Ok in Hinit as (dec & _ & Hself).
  injection Hself as <-. cbn [dispersion px_r total_genes n_batch n_labels].
  repeat split.
  - rewrite H. reflexivity.
  - unfold randn1. rewrite length_map, length_seq. reflexivity.
  - rewrite H. reflexivity.
  - apply Hshape.
  - apply Hshape.
  - rewrite H. reflexivity.
  - apply Hshape.
  - apply Hshape.
  - intros Hg Hb Hl. apply String.eqb_neq in Hg, Hb, Hl.
    rewrite Hg, Hb, Hl. reflexivity.
Qed.

(** With as many flags as datasets, a library encoder sits exactly at the
    modes whose flag is true. *)
Lemma init_l_encoders mode flag :
  length bools = length dim_input_list ->
  index (model_library_bools self) mode = Ok flag ->
  exists enc,
    index (l_encoders self) mode = Ok enc
    /\ (flag = true <-> enc <> None).
Proof.
  intros Hlen Hflag.
  unfold JVAE_init in Hinit.
  apply rbind_Ok in Hinit as (zenc & _ & Hinit).
  apply rbind_Ok in Hinit as (ls & Hls & Hinit).
  apply rbind_Ok in Hinit as (dec & _ & Hself).
  injection Hself as <-. cbn [model_library_bools l_encoders] in *.
  destruct mode as [i|]; [|discriminate].
  assert (Hlls : length ls = length bools).
  { apply mapM_length in Hls. rewrite length_seq in Hls. congruence. }
  rewrite index_position in Hflag. rewrite index_position. rewrite Hlls.
  destruct (fancy_position (length bools) i) as [j|e]; [|discriminate].
  cbn [rbind] in Hflag |- *.
  destruct (nth_error bools j) as [b|] eqn:Hb; [|discriminate].
  injection Hflag as ->.
  assert (Hj : (j < length dim_input_list)%nat)
    by (rewrite <- Hlen; apply nth_error_Some; congruence).
  assert (Hseq : nth_error (seq 0 (length dim_input_list)) j = Some j).
  { rewrite nth_error_seq. apply Nat.ltb_lt in Hj. rewrite Hj. reflexivity. }
  destruct (mapM_nth_error _ _ _ Hls Hseq) as (enc & Henc & Hf).
  rewrite Henc. exists enc. split; [reflexivity|].
  cbv beta in Hf. rewrite (index_nat _ _ Hb) in Hf. simpl in Hf.
  destruct flag.
  - apply rbind_Ok in Hf as (n & _ & Hf).
    apply rbind_Ok in Hf as (l_encoder & _ & Hf). injection Hf as <-.
    split; [discriminate | reflexivity].
  - injection Hf as <-. split; [discriminate | congruence].
Qed.

End InitProperties.

Tactic Notation "run_bind" hyp(H) "as" ident(a) ident(g) ident(H1) :=
  apply bind_Ok in H as (a & g & H1 & H);
  try (apply lift_Ok in H1 as [H1 ->]).

Section DecodeProperties.

Variable G : Type.
Variable self : JVAE G.

(** What a successful [decode] has computed. *)
Lemma decode_Ok z mode library batch_index y g px_scale px_r' px_rate px_dropout g' :
  decode self z mode library batch_index y g
  = Ok ((px_scale, px_r', px_rate, px_dropout), g') ->
  exists raw_scale raw_r raw_rate resolved mapping gathered,
    decoder self z mode library (dispersion self) batch_index y g
    = Ok ((raw_scale, raw_r, raw_rate, px_dropout), g')
    /\ resolve_px_r self raw_r batch_index y = Ok resolved
    /\ px_r' = texp resolved
    /\ index (indices_mappings self) mode = Ok mapping
    /\ gather raw_scale mapping = Ok gathered
    /\ px_scale = divide_rows raw_scale (sum_dim1 gathered)
    /\ tmul px_scale (texp library) = Ok px_rate.
Proof.
  unfold decode. intros H.
  run_inv H. destruct a as [[[raw_scale raw_r] raw_rate] raw_dropout].
  run_inv H. run_inv H. run_inv H. run_inv H. run_inv H. run_inv H.
  injection H as -> -> -> ->. subst g'.
  match goal with
  | Hg : gather raw_scale _ = Ok ?gathered, Hd : tdiv raw_scale _ = Ok _ |- _ =>
      assert (Hlen : length raw_scale = length (sum_dim1 gathered))
        by (unfold sum_dim1; rewrite length_map; symmetry;
            eapply gather_length; exact Hg);
      rewrite (tdiv_view_col _ _ Hlen) in Hd; injection Hd as <-
  end.
  do 6 eexists. repeat split; eassumption.
Qed.

End DecodeProperties.

Section Renormalization.

Variable G : Type.

(** The panel of the renormalised [px_scale] is the raw panel, each row
    divided by its own sum. *)
Lemma decode_panel (self : JVAE G) z mode library batch_index y g
      px_scale px_r' px_rate px_dropout g'
      raw_scale raw_r raw_rate raw_dropout g0 mapping raw_gathered :
  decoder self z mode library (dispersion self) batch_index y g
  = Ok ((raw_scale, raw_r, raw_rate, raw_dropout), g0) ->
  index (indices_mappings self) mode = Ok mapping ->
  gather raw_scale mapping = Ok raw_gathered ->
  decode self z mode library batch_index y g
  = Ok ((px_scale, px_r', px_rate, px_dropout), g') ->
  px_scale = divide_rows raw_scale (sum_dim1 raw_gathered)
  /\ gather px_scale mapping
     = Ok (map (fun row => map (fun a => a / rsum row) row) raw_gathered).
Proof.
  intros Hdec Hmap Hgat Hrun.
  apply decode_Ok in Hrun
    as (rs & rr & rt & res & mp & gt & Hdec' & _ & _ & Hmap' & Hgat' & Hps & _).
  rewrite Hdec in Hdec'. injection Hdec' as <- <- <- <- <-.
  rewrite Hmap in Hmap'. injection Hmap' as <-.
  rewrite Hgat in Hgat'. injection Hgat' as <-.
  split; [exact Hps|]. subst px_scale. apply gather_divide_rows. exact Hgat.
Qed.

(** C1, amended.  Renormalisation invariant of [decode].  Let the
    decoder's raw scale have a non-zero sum over the columns of the mode's
    index mapping in every cell.  Then the [px_scale] returned by [decode] is
    the raw scale divided, cell by cell, by the sum of the raw scale
    gathered at the mapping's columns (not by the sum over all genes), and
    [px_scale] gathered at those columns sums to 1 in every cell.  The
    normalised panel is computed from the raw panel alone: any other run
    of [decode], of any model and on any inputs, whose raw scale has the
    same values at these columns yields the same panel, whatever it holds
    in the columns of other datasets. *)
Theorem decode_px_scale_renormalized
        (self : JVAE G) z mode library batch_index y g
        px_scale px_r' px_rate px_dropout g'
        raw_scale raw_r raw_rate raw_dropout g0 mapping raw_gathered :
  decoder self z mode library (dispersion self) batch_index y g
  = Ok ((raw_scale, raw_r, raw_rate, raw_dropout), g0) ->
  index (indices_mappings self) mode = Ok mapping ->
  gather raw_scale mapping = Ok raw_gathered ->
  Forall (fun row => rsum row <> 0) raw_gathered ->
  decode self z mode library batch_index y g
  = Ok ((px_scale, px_r', px_rate, px_dropout), g') ->
  px_scale = divide_rows raw_scale (sum_dim1 raw_gathered)
  /\ exists gathered,
      gather px_scale mapping = Ok gathered
      /\ sum_dim1 gathered = map (fun _ => 1) px_scale
      /\ forall (self2 : JVAE G) z2 mode2 library2 batch_index2 y2 g2
                px_scale2 px_r2 px_rate2 px_dropout2 g2'
                raw_scale2 raw_r2 raw_rate2 raw_dropout2 g02,
          decoder self2 z2 mode2 library2 (dispersion self2) batch_index2 y2 g2
          = Ok ((raw_scale2, raw_r2, raw_rate2, raw_dropout2), g02) ->
          index (indices_mappings self2) mode2 = Ok mapping ->
          gather raw_scale2 mapping = Ok raw_gathered ->
          decode self2 z2 mode2 library2 batch_index2 y2 g2
          = Ok ((px_scale2, px_r2, px_rate2, px_dropout2), g2') ->
          gather px_scale2 mapping = Ok gathered.
Proof.
  intros Hdec Hmap Hgat Hnz Hrun.
  destruct (decode_panel _ _ _ _ _ _ _ Hdec Hmap Hgat Hrun) as [Hps Hpanel].
  split; [exact Hps|].
  eexists. split; [exact Hpanel|]. split.
  - subst px_scale. unfold divide_rows, scale_rows, sum_dim1.
    apply gather_length in Hgat.
    rewrite !map_map.
    assert (Hcomb : forall (t : tensor) (gs : tensor),
               length gs = length t ->
               Forall (fun row => rsum row <> 0) gs ->
               map (fun row => rsum (map (fun a => a / rsum row) row)) gs
               = map (fun _ : list R * R => 1) (combine t (map rsum gs))).
    { intros t gs. revert t. induction gs as [|r gs IH]; intros [|row t] Hl Hf;
        simpl in *; try reflexivity; try discriminate.
      inversion Hf; subst. rewrite rsum_renormalized by assumption.
      f_equal. apply IH; [lia | assumption]. }
    apply Hcomb; assumption.
  - intros self2 z2 mode2 library2 batch_index2 y2 g2
           px_scale2 px_r2 px_rate2 px_dropout2 g2'
           raw_scale2 raw_r2 raw_rate2 raw_dropout2 g02 Hdec2 Hmap2 Hgat2 Hrun2.
    apply (decode_panel _ _ _ _ _ _ _ Hdec2 Hmap2 Hgat2 Hrun2).
Qed.

End Renormalization.

(** Evaluates a method on a concrete instance, keeping real arithmetic
    symbolic. *)
Ltac demo_eval :=
  cbv -[Rplus Rmult Rinv Rminus Ropp Rdiv exp ln sqrt IZR Rlt Rle Rgt Rge].

Ltac demo_eval_in H :=
  cbv -[Rplus Rmult Rinv Rminus Ropp Rdiv exp ln sqrt IZR Rlt Rle Rgt Rge] in H.

Lemma decode_px_scale_renormalized_witness :
  Demo.two_panels "gene-batch" true = Ok Demo.joint
  /\ (exists px_scale px_r' px_rate px_dropout gathered,
        decode Demo.joint [[1; 2; 3]] (Some 0%Z) [[0]] (Some [1%Z]) None 1%nat
        = Ok ((px_scale, px_r', px_rate, px_dropout), 1%nat)
        /\ gather px_scale (Indices [0; 1; 2]%Z) = Ok gathered
        /\ sum_dim1 gathered = [1])
  /\ (exists px_scale px_r' px_rate px_dropout gathered,
        decode Demo.joint [[1; 2; 3]] (Some 1%Z) [[0]] (Some [1%Z]) None 1%nat
        = Ok ((px_scale, px_r', px_rate, px_dropout), 1%nat)
        /\ gather px_scale (Indices [3; 4; 5; 6]%Z) = Ok gathered
        /\ sum_dim1 gathered = [1]).
Proof.
  split; [reflexivity|]. split.
  - edestruct (@decode_px_scale_renormalized nat Demo.joint
                 [[1; 2; 3]] (Some 0%Z) [[0]] (Some [1%Z]) None 1%nat)
      as (Hps & gathered & Hg & Hsum & _).
    + demo_eval. reflexivity.
    + demo_eval. reflexivity.
    + demo_eval. reflexivity.
    + repeat constructor. cbv [rsum fold_right]. lra.
    + demo_eval. reflexivity.
    + do 5 eexists. split; [demo_eval; reflexivity|].
      split; [exact Hg | exact Hsum].
  - edestruct (@decode_px_scale_renormalized nat Demo.joint
                 [[1; 2; 3]] (Some 1%Z) [[0]] (Some [1%Z]) None 1%nat)
      as (Hps & gathered & Hg & Hsum & _).
    + demo_eval. reflexivity.
    + demo_eval. reflexivity.
    + demo_eval. reflexivity.
    + repeat constructor. cbv [rsum fold_right]. lra.
    + demo_eval. reflexivity.
    + do 5 eexists. split; [demo_eval; reflexivity|].
      split; [exact Hg | exact Hsum].
Defined.

(** C1 as stated fails: mode 0 of a model whose dataset observes no gene
    is a registered mode and [decode] returns for it, but the sum it
    divides by is the empty sum, and its [px_scale] gathered at the
    mapping's columns sums to 0 in the cell, not to 1. *)
Lemma decode_px_scale_empty_panel :
  exists px_scale px_r' px_rate px_dropout g' gathered,
    index (indices_mappings Demo.empty_panel) (Some 0%Z) = Ok (Indices [])
    /\ decode Demo.empty_panel [[1; 2; 3]] (Some 0%Z) (view_col [0]) None None
              1%nat
       = Ok ((px_scale, px_r', px_rate, px_dropout), g')
    /\ gather px_scale (Indices []) = Ok gathered
    /\ sum_dim1 gathered = [0]
    /\ sum_dim1 gathered <> [1].
Proof.
  do 6 eexists.
  split; [reflexivity|].
  split; [demo_eval; reflexivity|].
  split; [demo_eval; reflexivity|].
  split; [reflexivity|].
  intros H. injection H as H. lra.
Qed.

Section Rate.

Variable G : Type.

Lemma texp_view_col (lib : vec) : texp (view_col lib) = view_col (map exp lib).
Proof.
  unfold texp, tmap, view_col. rewrite !map_map. reflexivity.
Qed.

(** C2.  The [px_scale] returned by [decode] is the renormalised one: the
    decoder's raw scale divided, cell by cell, by its sum over the columns
    of the mode's index mapping.  The [px_rate] returned by [decode] is
    that renormalised [px_scale] times [exp(library)], broadcast over
    genes, for the [library] passed to [decode]: with one library value per
    cell, entry [(i, k)] is [px_scale[i][k] * exp(library[i])].  The
    generator is not touched after the decoder network has run, and the raw
    rate of the decoder is not used: replacing it changes nothing in what
    [decode] returns. *)
Theorem decode_px_rate_recomputed
        (self : JVAE G) z mode library batch_index y g
        px_scale px_r' px_rate px_dropout g' :
  decode self z mode library batch_index y g
  = Ok ((px_scale, px_r', px_rate, px_dropout), g') ->
  exists raw_scale raw_r raw_rate mapping gathered,
    decoder self z mode library (dispersion self) batch_index y g
    = Ok ((raw_scale, raw_r, raw_rate, px_dropout), g')
    /\ index (indices_mappings self) mode = Ok mapping
    /\ gather raw_scale mapping = Ok gathered
    /\ px_scale = divide_rows raw_scale (sum_dim1 gathered)
    /\ tmul px_scale (texp library) = Ok px_rate
    /\ (forall lib : vec,
          library = view_col lib -> length lib = length px_scale ->
          px_rate
          = scale_rows Rmult (divide_rows raw_scale (sum_dim1 gathered))
                       (map exp lib))
    /\ (forall (d : decoder_net G) raw_rate2,
          d z mode library (dispersion self) batch_index y g
          = Ok ((raw_scale, raw_r, raw_rate2, px_dropout), g') ->
          decode (with_decoder self d) z mode library batch_index y g
          = Ok ((px_scale, px_r', px_rate, px_dropout), g')).
Proof.
  intros Hrun. pose proof Hrun as Hinv.
  apply decode_Ok in Hinv
    as (rs & rr & rt & res & mp & gt & Hdec & Hres & Hr & Hmap & Hgat & Hps & Hrate).
  exists rs, rr, rt, mp, gt.
  split; [exact Hdec|]. split; [exact Hmap|]. split; [exact Hgat|].
  split; [exact Hps|]. split; [exact Hrate|]. split.
  - intros lib -> Hlen. rewrite texp_view_col in Hrate.
    unfold tmul in Hrate. rewrite tbcast_view_col in Hrate
      by (rewrite length_map; symmetry; exact Hlen).
    injection Hrate as <-. rewrite Hps. reflexivity.
  - intros d raw_rate2 Hd. rewrite <- Hrun.
    unfold decode, bind. cbn [decoder with_decoder dispersion indices_mappings].
    rewrite Hd, Hdec. reflexivity.
Qed.

End Rate.

Lemma decode_px_rate_recomputed_witness :
  exists px_scale px_r' px_rate px_dropout,
    decode Demo.joint [[1; 2; 3]] (Some 0%Z) (view_col [1]) (Some [1%Z]) None 1%nat
    = Ok ((px_scale, px_r', px_rate, px_dropout), 1%nat)
    /\ px_scale = [[1 / 6; 2 / 6; 3 / 6; 4 / 6; 5 / 6; 6 / 6; 7 / 6]]
    /\ px_rate = [[1 / 6 * exp 1; 2 / 6 * exp 1; 3 / 6 * exp 1; 4 / 6 * exp 1;
                   5 / 6 * exp 1; 6 / 6 * exp 1; 7 / 6 * exp 1]].
Proof.
  do 4 eexists.
  split; [demo_eval; reflexivity|].
  edestruct (@decode_px_rate_recomputed nat Demo.joint
               [[1; 2; 3]] (Some 0%Z) (view_col [1]) (Some [1%Z]) None 1%nat)
    as (raw_scale & raw_r & raw_rate & mapping & gathered
        & Hdec & Hmap & Hgat & Hps & _ & Hrate & _);
    [demo_eval; reflexivity|].
  demo_eval_in Hdec. injection Hdec as <- _ _.
  demo_eval_in Hmap. injection Hmap as <-.
  demo_eval_in Hgat. injection Hgat as <-.
  specialize (Hrate [1] eq_refl eq_refl).
  split.
  - rewrite Hps. demo_eval. repeat f_equal; lra.
  - rewrite Hrate. demo_eval. repeat f_equal; lra.
Defined.

Section Encode.

Variable G : Type.

(** C3.  Let [flag] be the library-modelling flag of [mode].  When it is
    false, [encode] runs the latent encoder on the (possibly log(1+x)
    transformed) input and returns [ql_m] and [ql_v] as [None] and
    [library = log(sum(x, dim=1))] on the raw input [x], whether or not
    [log_variational] is set.  In every successful call, [ql_m] and [ql_v]
    are tensors exactly when the flag is true. *)
Theorem encode_library_flag (self : JVAE G) x mode flag :
  index (model_library_bools self) mode = Ok flag ->
  (flag = false ->
   forall g,
     encode self x mode g
     = match z_encoder self
               (if log_variational self then tmap (fun v => ln (1 + v)) x else x)
               mode g with
       | Ok ((qz_m, qz_v, z), g1) =>
           Ok ((qz_m, qz_v, z, None, None, view_col (map ln (sum_dim1 x))), g1)
       | Raise e => Raise e
       end)
  /\ (forall g qz_m qz_v z ql_m ql_v library g',
        encode self x mode g = Ok ((qz_m, qz_v, z, ql_m, ql_v, library), g') ->
        (ql_m <> None <-> flag = true)
        /\ (ql_v <> None <-> flag = true)
        /\ (flag = false -> library = view_col (map ln (sum_dim1 x)))).
Proof.
  intros Hflag. split.
  - intros -> g. unfold encode, bind.
    destruct (z_encoder self _ mode g) as [[[[qz_m qz_v] z] g1]|e]; [|reflexivity].
    unfold lift. rewrite Hflag. reflexivity.
  - intros g qz_m qz_v z ql_m ql_v library g' Hrun.
    unfold encode in Hrun. run_inv Hrun.
    destruct a as [[qz_m0 qz_v0] z0]. run_inv Hrun.
    match goal with H : index (model_library_bools self) mode = Ok _ |- _ =>
      rewrite Hflag in H; injection H as <- end.
    destruct flag.
    + run_inv Hrun.
      match goal with |- context [ql_m <> None] => idtac end.
      destruct a as [l_encoder|]; [|run_inv Hrun].
      run_inv Hrun. destruct a as [[ql_m0 ql_v0] library0].
      run_inv Hrun. injection H as -> -> -> -> -> ->.
      repeat split; intros; try discriminate; try reflexivity.
    + run_inv Hrun. injection H as -> -> -> -> -> ->.
      repeat split; intros; try discriminate; try congruence.
Qed.

End Encode.

Lemma encode_library_flag_witness :
  encode Demo.joint [[1; 2; 3]] (Some 0%Z) 1%nat
  = Ok (([[ln (1 + 1); ln (1 + 2); ln (1 + 3)]],
         [[1; 1; 1]],
         [[ln (1 + 1) + 1; ln (1 + 2) + 1; ln (1 + 3) + 1]],
         None, None, [[ln (1 + (2 + (3 + 0)))]]), 2%nat).
Proof.
  destruct (@encode_library_flag nat Demo.joint [[1; 2; 3]] (Some 0%Z) false)
    as [Hrun _]; [reflexivity|].
  rewrite Hrun by reflexivity. reflexivity.
Defined.

Section ModeResolution.

Variable G : Type.
Variable log_zinb_positive : tensor -> tensor -> tensor -> tensor -> result vec.
Variable log_nb_positive : tensor -> tensor -> tensor -> result vec.
Variable Poisson_log_prob : tensor -> tensor -> result tensor.

Lemma forward_single (self : JVAE G) x local_l_mean local_l_var batch_index y :
  length (n_input_list self) = 1%nat ->
  forward log_zinb_positive log_nb_positive Poisson_log_prob self x local_l_mean local_l_var batch_index y None
  = forward log_zinb_positive log_nb_positive Poisson_log_prob self x local_l_mean local_l_var batch_index y (Some 0%Z).
Proof.
  intros Hlen. unfold forward. rewrite Hlen. reflexivity.
Qed.

Lemma sample_from_posterior_z_single (self : JVAE G) x deterministic :
  length (n_input_list self) = 1%nat ->
  sample_from_posterior_z self x None deterministic
  = sample_from_posterior_z self x (Some 0%Z) deterministic.
Proof.
  intros Hlen. unfold sample_from_posterior_z. rewrite Hlen. reflexivity.
Qed.

(** C4.  [forward] and [sample_from_posterior_z] called without a mode:
    with exactly one registered dataset they are the calls with mode 0;
    with any other number of datasets (in particular several) they are
    the computation that raises, so no encoder is run and the generator
    is not consulted. *)
Theorem omitted_mode (self : JVAE G) x local_l_mean local_l_var
        batch_index y deterministic :
  (length (n_input_list self) = 1%nat ->
   forward log_zinb_positive log_nb_positive Poisson_log_prob self x local_l_mean local_l_var batch_index y None
   = forward log_zinb_positive log_nb_positive Poisson_log_prob self x local_l_mean local_l_var batch_index y (Some 0%Z)
   /\ sample_from_posterior_z self x None deterministic
      = sample_from_posterior_z self x (Some 0%Z) deterministic)
  /\ (length (n_input_list self) <> 1%nat ->
      forward log_zinb_positive log_nb_positive Poisson_log_prob self x local_l_mean local_l_var batch_index y None
      = raise (Exception "Must provide a mode")
      /\ sample_from_posterior_z self x None deterministic
         = raise (Exception "Must provide a mode when having multiple datasets")).
Proof.
  split.
  - intros Hlen. split.
    + apply forward_single. exact Hlen.
    + apply sample_from_posterior_z_single. exact Hlen.
  - intros Hlen. apply Nat.eqb_neq in Hlen.
    unfold forward, sample_from_posterior_z. rewrite Hlen.
    split; reflexivity.
Qed.

End ModeResolution.

Lemma omitted_mode_witness :
  forward Demo.log_zinb_positive Demo.log_nb_positive Demo.Poisson_log_prob
          Demo.single [[1; 2; 3]] [[0]] [[1]] None None None
  = forward Demo.log_zinb_positive Demo.log_nb_positive Demo.Poisson_log_prob
            Demo.single [[1; 2; 3]] [[0]] [[1]] None None (Some 0%Z)
  /\ sample_from_posterior_z Demo.joint [[1; 2; 3]] None true
     = raise (Exception "Must provide a mode when having multiple datasets").
Proof.
  split.
  - apply (omitted_mode Demo.log_zinb_positive Demo.log_nb_positive
             Demo.Poisson_log_prob Demo.single [[1; 2; 3]] [[0]] [[1]]
             None None true).
    reflexivity.
  - apply (omitted_mode Demo.log_zinb_positive Demo.log_nb_positive
             Demo.Poisson_log_prob Demo.joint [[1; 2; 3]] [[0]] [[1]]
             None None true).
    simpl. discriminate.
Defined.

Section Dispersion.

Variable G : Type.





End Dispersion.


(** Adding a tensor of zeros of the same shape. *)
Lemma vadd_zeros_like (v : vec) : vadd (vzeros_like v) v = Ok v.
Proof.
  unfold vadd, vbcast, vzeros_like, bcast.
  assert (Hgen : forall u : vec,
             mapM (fun ab : R * R => Ok (fst ab + snd ab))
                  (combine (map (fun _ => 0) u) u) = Ok u).
  { induction u as [|a u IH]; simpl; [reflexivity|].
    rewrite IH. simpl. rewrite Rplus_0_l. reflexivity. }
  destruct v as [|a [|b v]].
  - reflexivity.
  - simpl. rewrite Rplus_0_l. reflexivity.
  - cbn [map]. cbn [map] in Hgen.
    match goal with
    | |- context [(?a =? ?b)%nat] => replace (a =? b)%nat with true
    end; [exact (Hgen (a :: b :: v))|].
    symmetry. apply Nat.eqb_eq. simpl. rewrite length_map. reflexivity.
Qed.

(** One entry of [kl]: the divergence between two univariate normals. *)
Lemma kl_entry (m1 s1 m2 s2 : R) :
  kl {| loc := [[m1]]; scale := [[s1]] |} {| loc := [[m2]]; scale := [[s2]] |}
  = Ok [[0.5 * ((s1 / s2) * (s1 / s2) + ((m1 - m2) / s2) * ((m1 - m2) / s2) - 1
                - ln ((s1 / s2) * (s1 / s2)))]].
Proof. reflexivity. Qed.

Lemma gaussian_kl_closed_form (m1 s1 m2 s2 : R) :
  0 < s1 -> 0 < s2 ->
  0.5 * ((s1 / s2) * (s1 / s2) + ((m1 - m2) / s2) * ((m1 - m2) / s2) - 1
         - ln ((s1 / s2) * (s1 / s2)))
  = ln (s2 / s1) + (s1 * s1 + (m1 - m2) * (m1 - m2)) / (2 * (s2 * s2)) - 1 / 2.
Proof.
  intros H1 H2.
  assert (Hq : 0 < s1 / s2) by (apply Rdiv_lt_0_compat; assumption).
  rewrite ln_mult by assumption.
  replace (s2 / s1) with (/ (s1 / s2)) by (field; split; lra).
  rewrite ln_Rinv by assumption.
  replace 0.5 with (/ 2) by lra.
  generalize (ln (s1 / s2)). intros L.
  field. lra.
Qed.

Section Loss.

Variable G : Type.
Variable log_zinb_positive : tensor -> tensor -> tensor -> tensor -> result vec.
Variable log_nb_positive : tensor -> tensor -> tensor -> result vec.
Variable Poisson_log_prob : tensor -> tensor -> result tensor.

(** What a successful [forward] with an explicit mode has computed. *)
Lemma forward_Ok (self : JVAE G) x local_l_mean local_l_var batch_index y mode
      g rl total g' :
  mode <> None ->
  forward log_zinb_positive log_nb_positive Poisson_log_prob
          self x local_l_mean local_l_var batch_index y mode g
  = Ok ((rl, total), g') ->
  exists qz_m qz_v z ql_m ql_v library g1 px_scale px_r' px_rate px_dropout
         mapping g_rate g_r g_dropout kl_z flag kl_l,
    encode self x mode g = Ok ((qz_m, qz_v, z, ql_m, ql_v, library), g1)
    /\ decode self z mode library batch_index y g1
       = Ok ((px_scale, px_r', px_rate, px_dropout), g')
    /\ index (indices_mappings self) mode = Ok mapping
    /\ gather px_rate mapping = Ok g_rate
    /\ gather px_r' mapping = Ok g_r
    /\ gather px_dropout mapping = Ok g_dropout
    /\ reconstruction_loss log_zinb_positive log_nb_positive Poisson_log_prob
                           self x g_rate g_r g_dropout mode = Ok rl
    /\ kl_sum qz_m (tsqrt qz_v) (zeros_like qz_m) (ones_like qz_v) = Ok kl_z
    /\ index (model_library_bools self) mode = Ok flag
    /\ (if flag
        then rbind (the_tensor ql_m) (fun ql_m =>
             rbind (the_tensor ql_v) (fun ql_v =>
             kl_sum ql_m (tsqrt ql_v) local_l_mean (tsqrt local_l_var)))
        else Ok (vzeros_like kl_z)) = Ok kl_l
    /\ vadd kl_l kl_z = Ok total.
Proof.
  intros Hmode Hrun. destruct mode as [m|]; [clear Hmode | congruence].
  unfold forward in Hrun.
  run_bind Hrun as mode' g0 Hmode. apply ret_Ok in Hmode as [-> ->].
  run_bind Hrun as enc g1 Henc.
  destruct enc as [[[[[qz_m qz_v] z] ql_m] ql_v] library].
  run_bind Hrun as dec g2 Hdec.
  destruct dec as [[[px_scale px_r'] px_rate] px_dropout].
  run_bind Hrun as mapping g3 Hmap.
  run_bind Hrun as g_rate g4 Hrate.
  run_bind Hrun as g_r g5 Hr.
  run_bind Hrun as g_dropout g6 Hdrop.
  run_bind Hrun as rl0 g7 Hrl.
  run_bind Hrun as kl_z g8 Hklz.
  run_bind Hrun as flag g9 Hflag.
  run_bind Hrun as kl_l g10 Hkll.
  run_bind Hrun as total0 g11 Htot.
  apply ret_Ok in Hrun as [Heq Hg]. injection Heq as -> ->.
  assert (Hkl : (if flag
                 then rbind (the_tensor ql_m) (fun ql_m =>
                      rbind (the_tensor ql_v) (fun ql_v =>
                      kl_sum ql_m (tsqrt ql_v) local_l_mean (tsqrt local_l_var)))
                 else Ok (vzeros_like kl_z)) = Ok kl_l /\ g10 = g2).
  { destruct flag.
    - apply lift_Ok in Hkll as [Hkll ->]. auto.
    - apply ret_Ok in Hkll as [-> ->]. auto. }
  destruct Hkl as [Hkl ->]. subst g'.
  exists qz_m, qz_v, z, ql_m, ql_v, library, g1, px_scale, px_r', px_rate,
    px_dropout, mapping, g_rate, g_r, g_dropout, kl_z, flag, kl_l.
  repeat split; assumption.
Qed.

End Loss.

Section LossProperties.

Variable G : Type.
Variable log_zinb_positive : tensor -> tensor -> tensor -> tensor -> result vec.
Variable log_nb_positive : tensor -> tensor -> tensor -> result vec.
Variable Poisson_log_prob : tensor -> tensor -> result tensor.

(** C6.  In a successful [forward] the returned total is
    [kl_divergence_l + kl_divergence_z], where [kl_divergence_z] is the
    divergence of N(qz_m, sqrt(qz_v)) from N(0, 1) summed per cell.  When
    the mode's library flag is false, [kl_divergence_l] is a tensor of
    zeros of the shape of [kl_divergence_z], and the total equals
    [kl_divergence_z]; when it is true, [kl_divergence_l] is the divergence
    of N(ql_m, sqrt(ql_v)) from N(local_l_mean, sqrt(local_l_var)) summed
    per cell. *)
Theorem forward_kl_library (self : JVAE G) x local_l_mean local_l_var
        batch_index y mode g rl total g' flag :
  index (model_library_bools self) mode = Ok flag ->
  forward log_zinb_positive log_nb_positive Poisson_log_prob
          self x local_l_mean local_l_var batch_index y mode g
  = Ok ((rl, total), g') ->
  exists qz_m qz_v z ql_m ql_v library g1 kl_z kl_l,
    encode self x mode g = Ok ((qz_m, qz_v, z, ql_m, ql_v, library), g1)
    /\ kl_sum qz_m (tsqrt qz_v) (zeros_like qz_m) (ones_like qz_v) = Ok kl_z
    /\ vadd kl_l kl_z = Ok total
    /\ (flag = false ->
        kl_l = vzeros_like kl_z /\ length kl_l = length kl_z
        /\ Forall (fun v => v = 0) kl_l /\ total = kl_z)
    /\ (flag = true ->
        exists m v,
          ql_m = Some m /\ ql_v = Some v
          /\ kl_sum m (tsqrt v) local_l_mean (tsqrt local_l_var) = Ok kl_l).
Proof.
  intros Hflag Hrun.
  assert (Hmode : mode <> None) by (intros ->; discriminate).
  apply forward_Ok in Hrun
    as (qz_m & qz_v & z & ql_m & ql_v & library & g1 & ps & pr & prate & pd
        & mp & gr & grr & gd & kl_z & flag' & kl_l
        & Henc & _ & _ & _ & _ & _ & _ & Hklz & Hflag' & Hkll & Htot);
    [|exact Hmode].
  rewrite Hflag in Hflag'. injection Hflag' as <-.
  exists qz_m, qz_v, z, ql_m, ql_v, library, g1, kl_z, kl_l.
  repeat split; try assumption.
  - subst flag. injection Hkll as <-. reflexivity.
  - subst flag. injection Hkll as <-. unfold vzeros_like. apply length_map.
  - subst flag. injection Hkll as <-. unfold vzeros_like.
    apply Forall_forall. intros v Hv. apply in_map_iff in Hv as (a & <- & _).
    reflexivity.
  - subst flag. injection Hkll as <-. rewrite vadd_zeros_like in Htot. congruence.
  - intros ->. destruct ql_m as [m|]; [|discriminate].
    destruct ql_v as [v|]; [|discriminate].
    exists m, v. repeat split. exact Hkll.
Qed.

(** C8.  If the loss kind registered for [mode] is none of "zinb", "nb"
    and "poisson", [reconstruction_loss] returns [None] without raising,
    and a [forward] that returns, with this mode given or defaulted,
    returns [None] as its reconstruction loss. *)
Theorem reconstruction_loss_unknown_kind (self : JVAE G) mode kind :
  index (reconstruction_losses self) mode = Ok kind ->
  kind <> "zinb" -> kind <> "nb" -> kind <> "poisson" ->
  (forall x px_rate px_r' px_dropout,
      reconstruction_loss log_zinb_positive log_nb_positive Poisson_log_prob
                          self x px_rate px_r' px_dropout mode = Ok None)
  /\ (forall x local_l_mean local_l_var batch_index y given g rl total g',
        given = mode \/ (given = None /\ mode = Some 0%Z) ->
        forward log_zinb_positive log_nb_positive Poisson_log_prob
                self x local_l_mean local_l_var batch_index y given g
        = Ok ((rl, total), g') ->
        rl = None).
Proof.
  intros Hkind Hz Hn Hp.
  apply String.eqb_neq in Hz, Hn, Hp.
  assert (Hloss : forall x px_rate px_r' px_dropout,
             reconstruction_loss log_zinb_positive log_nb_positive
               Poisson_log_prob self x px_rate px_r' px_dropout mode = Ok None).
  { intros. unfold reconstruction_loss. rewrite Hkind. simpl.
    rewrite Hz, Hn, Hp. reflexivity. }
  split; [exact Hloss|].
  intros x local_l_mean local_l_var batch_index y given g rl total g' Hgiven Hrun.
  assert (Hrun' : forward log_zinb_positive log_nb_positive Poisson_log_prob
                    self x local_l_mean local_l_var batch_index y mode g
                  = Ok ((rl, total), g')).
  { destruct Hgiven as [-> | [-> ->]]; [exact Hrun|].
    destruct (Nat.eq_dec (length (n_input_list self)) 1) as [Hlen|Hlen].
    - rewrite <- (forward_single log_zinb_positive log_nb_positive
                    Poisson_log_prob self x local_l_mean local_l_var
                    batch_index y Hlen). exact Hrun.
    - apply Nat.eqb_neq in Hlen. unfold forward in Hrun. rewrite Hlen in Hrun.
      discriminate. }
  assert (Hmode : mode <> None) by (intros ->; discriminate).
  apply forward_Ok in Hrun'
    as (qz_m & qz_v & z & ql_m & ql_v & library & g1 & ps & pr & prate & pd
        & mp & gr & grr & gd & kl_z & flag' & kl_l
        & _ & _ & _ & _ & _ & _ & Hrl & _); [|exact Hmode].
  rewrite Hloss in Hrl. congruence.
Qed.

End LossProperties.

Lemma forward_kl_library_witness :
  exists rl total g' qz_m qz_v,
    forward Demo.log_zinb_positive Demo.log_nb_positive Demo.Poisson_log_prob
            Demo.joint [[1; 2; 3]] [[0]] [[1]] (Some [1%Z]) None (Some 0%Z) 1%nat
    = Ok ((rl, total), g')
    /\ kl_sum qz_m (tsqrt qz_v) (zeros_like qz_m) (ones_like qz_v) = Ok total.
Proof.
  do 3 eexists.
  edestruct (@forward_kl_library nat Demo.log_zinb_positive Demo.log_nb_positive
               Demo.Poisson_log_prob Demo.joint [[1; 2; 3]] [[0]] [[1]]
               (Some [1%Z]) None (Some 0%Z) 1%nat)
    as (qz_m & qz_v & z & ql_m & ql_v & library & g1 & kl_z & kl_l
        & _ & Hklz & _ & Hfalse & _);
    [reflexivity | demo_eval; reflexivity |].
  exists qz_m, qz_v. split; [demo_eval; reflexivity|].
  destruct (Hfalse eq_refl) as (_ & _ & _ & Htotal).
  rewrite Htotal. exact Hklz.
Defined.

Lemma reconstruction_loss_unknown_kind_witness :
  exists total g',
    forward Demo.log_zinb_positive Demo.log_nb_positive Demo.Poisson_log_prob
            Demo.unknown_loss [[1; 2; 3]] [[0]] [[1]] None None None 1%nat
    = Ok ((None, total), g').
Proof.
  assert (Hrun : exists rl total g',
             forward Demo.log_zinb_positive Demo.log_nb_positive
                     Demo.Poisson_log_prob Demo.unknown_loss
                     [[1; 2; 3]] [[0]] [[1]] None None None 1%nat
             = Ok ((rl, total), g'))
    by (do 3 eexists; demo_eval; reflexivity).
  destruct Hrun as (rl & total & g' & Hrun).
  exists total, g'. rewrite Hrun.
  destruct (@reconstruction_loss_unknown_kind nat Demo.log_zinb_positive
              Demo.log_nb_positive Demo.Poisson_log_prob Demo.unknown_loss
              (Some 0%Z) "gaussian") as [_ Hfwd];
    [reflexivity | discriminate | discriminate | discriminate |].
  rewrite (Hfwd _ _ _ _ _ _ _ _ _ _ (or_intror (conj eq_refl eq_refl)) Hrun).
  reflexivity.
Defined.

Section Sampling.

Variable G : Type.
Variable log_zinb_positive : tensor -> tensor -> tensor -> tensor -> result vec.
Variable log_nb_positive : tensor -> tensor -> tensor -> result vec.
Variable Poisson_log_prob : tensor -> tensor -> result tensor.

(** The decode step of a successful [forward] is the one [forward_decode]
    runs: the reconstruction loss that [forward] returns is computed from
    its [px_rate], [px_r] and [px_dropout]. *)
Lemma forward_decode_step (self : JVAE G) x local_l_mean local_l_var
      batch_index y mode g rl total g' :
  forward log_zinb_positive log_nb_positive Poisson_log_prob
          self x local_l_mean local_l_var batch_index y mode g
  = Ok ((rl, total), g') ->
  exists mode' enc px_scale px_r' px_rate px_dropout mapping g_rate g_r g_dropout,
    forward_decode self x batch_index y mode g
    = Ok ((mode', enc, (px_scale, px_r', px_rate, px_dropout)), g')
    /\ index (indices_mappings self) mode' = Ok mapping
    /\ gather px_rate mapping = Ok g_rate
    /\ gather px_r' mapping = Ok g_r
    /\ gather px_dropout mapping = Ok g_dropout
    /\ reconstruction_loss log_zinb_positive log_nb_positive Poisson_log_prob
                           self x g_rate g_r g_dropout mode' = Ok rl.
Proof.
  unfold forward, forward_decode. intros Hrun.
  run_bind Hrun as mode' g0 Hmode.
  run_bind Hrun as enc g1 Henc.
  destruct enc as [[[[[qz_m qz_v] z] ql_m] ql_v] library].
  run_bind Hrun as dec g2 Hdec.
  destruct dec as [[[px_scale px_r'] px_rate] px_dropout].
  run_bind Hrun as mapping g3 Hmap.
  run_bind Hrun as g_rate g4 Hrate.
  run_bind Hrun as g_r g5 Hr.
  run_bind Hrun as g_dropout g6 Hdrop.
  run_bind Hrun as rl0 g7 Hrl.
  run_bind Hrun as kl_z g8 Hklz.
  run_bind Hrun as flag g9 Hflag.
  run_bind Hrun as kl_l g10 Hkll.
  run_bind Hrun as total0 g11 Htot.
  apply ret_Ok in Hrun as [Hout ->]. injection Hout as -> ->.
  assert (g10 = g2) as ->.
  { destruct flag.
    - apply lift_Ok in Hkll as [_ ->]. reflexivity.
    - apply ret_Ok in Hkll as [_ ->]. reflexivity. }
  exists mode', (qz_m, qz_v, z, ql_m, ql_v, library),
    px_scale, px_r', px_rate, px_dropout, mapping, g_rate, g_r, g_dropout.
  repeat split; try assumption.
  unfold bind. rewrite Hmode, Henc, Hdec. reflexivity.
Qed.

(** C7, amended.  After [encode] has returned, [sample_rate] with
    [deterministic=True] and [decode_mode = mode] returns the [px_rate] of
    [decode] applied to [qz_m] and to [ql_m] (to the observed library when
    the mode does not model it), whereas the decode step of [forward] is
    [decode] applied to the sampled [z] and the sampled [library].  The two
    rates are equal when the sample [z] equals [qz_m] and [library] equals
    [ql_m] or is not modelled. *)
Theorem sample_rate_deterministic_decode
        (self : JVAE G) x m batch_index y g
        qz_m qz_v z ql_m ql_v library g1 :
  encode self x (Some m) g = Ok ((qz_m, qz_v, z, ql_m, ql_v, library), g1) ->
  sample_rate self x (Some m) batch_index y true (Some m) g
  = match decode self qz_m (Some m)
                 (match ql_m with Some ql_m => ql_m | None => library end)
                 batch_index y g1 with
    | Ok ((_, _, px_rate, _), g2) => Ok (px_rate, g2)
    | Raise e => Raise e
    end
  /\ forward_decode self x batch_index y (Some m) g
     = match decode self z (Some m) library batch_index y g1 with
       | Ok (dec, g2) =>
           Ok ((Some m, (qz_m, qz_v, z, ql_m, ql_v, library), dec), g2)
       | Raise e => Raise e
       end
  /\ (z = qz_m -> ql_m = None \/ ql_m = Some library ->
      forall mode' enc px_scale px_r' px_rate px_dropout g2,
        forward_decode self x batch_index y (Some m) g
        = Ok ((mode', enc, (px_scale, px_r', px_rate, px_dropout)), g2) ->
        sample_rate self x (Some m) batch_index y true (Some m) g
        = Ok (px_rate, g2)).
Proof.
  intros Henc.
  assert (Hs : sample_rate self x (Some m) batch_index y true (Some m) g
               = match decode self qz_m (Some m)
                              (match ql_m with Some ql_m => ql_m | None => library end)
                              batch_index y g1 with
                 | Ok ((_, _, px_rate, _), g2) => Ok (px_rate, g2)
                 | Raise e => Raise e
                 end).
  { unfold sample_rate, bind. rewrite Henc.
    destruct (decode self qz_m (Some m) _ batch_index y g1)
      as [[[[[ps pr] prate] pd] g2]|e]; reflexivity. }
  assert (Hf : forward_decode self x batch_index y (Some m) g
               = match decode self z (Some m) library batch_index y g1 with
                 | Ok (dec, g2) =>
                     Ok ((Some m, (qz_m, qz_v, z, ql_m, ql_v, library), dec), g2)
                 | Raise e => Raise e
                 end).
  { unfold forward_decode, bind. cbn [ret]. rewrite Henc.
    destruct (decode self z (Some m) library batch_index y g1)
      as [[dec g2]|e]; reflexivity. }
  split; [exact Hs|]. split; [exact Hf|].
  intros -> Hlib mode' enc px_scale px_r' px_rate px_dropout g2 Hrun.
  rewrite Hs. rewrite Hf in Hrun.
  assert (Hl : match ql_m with Some ql_m => ql_m | None => library end = library)
    by (destruct Hlib as [-> | ->]; reflexivity).
  rewrite Hl.
  destruct (decode self qz_m (Some m) library batch_index y g1)
    as [[dec g2']|e]; [|discriminate].
  injection Hrun as _ _ -> ->. reflexivity.
Qed.

(** C9.  [sample_from_posterior_l] without a mode raises, whatever the
    number of registered datasets: [None] reaches [encode], and if the
    latent encoder returns at all, indexing [model_library_bools] with it
    is a TypeError.  With exactly one dataset, [sample_from_posterior_z]
    and [forward] without a mode are the calls with mode 0 instead. *)
Theorem sample_from_posterior_l_no_default
        (self : JVAE G) x deterministic g :
  (exists e, sample_from_posterior_l self x None deterministic g = Raise e)
  /\ (forall out g1,
        z_encoder self
                  (if log_variational self then tmap (fun v => ln (1 + v)) x else x)
                  None g = Ok (out, g1) ->
        sample_from_posterior_l self x None deterministic g = Raise TypeError)
  /\ (length (n_input_list self) = 1%nat ->
      sample_from_posterior_z self x None deterministic
      = sample_from_posterior_z self x (Some 0%Z) deterministic
      /\ forall local_l_mean local_l_var batch_index y,
          forward log_zinb_positive log_nb_positive Poisson_log_prob
                  self x local_l_mean local_l_var batch_index y None
          = forward log_zinb_positive log_nb_positive Poisson_log_prob
                    self x local_l_mean local_l_var batch_index y (Some 0%Z)).
Proof.
  assert (Hraise : forall out g1,
             z_encoder self
                       (if log_variational self
                        then tmap (fun v => ln (1 + v)) x else x)
                       None g = Ok (out, g1) ->
             sample_from_posterior_l self x None deterministic g = Raise TypeError).
  { intros [[qz_m qz_v] z] g1 Hz.
    unfold sample_from_posterior_l, encode, bind. rewrite Hz. reflexivity. }
  split; [|split; [exact Hraise|]].
  - destruct (z_encoder self
                (if log_variational self then tmap (fun v => ln (1 + v)) x else x)
                None g) as [[out g1]|e] eqn:Hz.
    + exists TypeError. exact (Hraise out g1 eq_refl).
    + exists e. unfold sample_from_posterior_l, encode, bind. rewrite Hz.
      reflexivity.
  - intros Hlen. split.
    + apply sample_from_posterior_z_single. exact Hlen.
    + intros. apply forward_single. exact Hlen.
Qed.

(** C10.  [get_sample_rate(x, batch_index, ...)] is
    [sample_rate(x, 0, batch_index)] with the defaults [y=None],
    [deterministic=False], [decode_mode=None], hence decode mode 0: it
    encodes [x] with head 0, decodes the sampled [z] and [library] with
    head 0 and returns [px_rate], and the extra positional and keyword
    arguments do not matter. *)
Theorem get_sample_rate_head_0
        (self : JVAE G) (V : Type) x batch_index
        (args : list V) (kwargs : list (string * V)) :
  get_sample_rate self x batch_index args kwargs
  = sample_rate self x (Some 0%Z) batch_index None false None
  /\ get_sample_rate self x batch_index args kwargs
     = sample_rate self x (Some 0%Z) batch_index None false (Some 0%Z)
  /\ get_sample_rate self x batch_index args kwargs
     = bind (encode self x (Some 0%Z))
            (fun enc =>
               let '(qz_m, qz_v, z, ql_m, ql_v, library) := enc in
               bind (decode self z (Some 0%Z) library batch_index None)
                    (fun dec =>
                       let '(px_scale, px_r', px_rate, px_dropout) := dec in
                       ret px_rate))
  /\ (forall (V' : Type) (args' : list V') (kwargs' : list (string * V')),
        get_sample_rate self x batch_index args' kwargs'
        = get_sample_rate self x batch_index args kwargs).
Proof.
  repeat split.
Qed.

End Sampling.

(** C7 as stated fails: with a latent draw that differs from its mean,
    the deterministic [sample_rate] and the decode step of [forward]
    return different rates on the same inputs. *)
Lemma sample_rate_differs_from_forward_decode :
  exists r1 g1 mode' enc px_scale px_r' r2 px_dropout g2 out g',
    sample_rate Demo.raw_input [[1; 2; 3]] (Some 0%Z) (Some [1%Z]) None
                true (Some 0%Z) 1%nat = Ok (r1, g1)
    /\ forward Demo.log_zinb_positive Demo.log_nb_positive Demo.Poisson_log_prob
               Demo.raw_input [[1; 2; 3]] [[0]] [[1]] (Some [1%Z]) None
               (Some 0%Z) 1%nat = Ok (out, g')
    /\ forward_decode Demo.raw_input [[1; 2; 3]] (Some [1%Z]) None (Some 0%Z) 1%nat
       = Ok ((mode', enc, (px_scale, px_r', r2, px_dropout)), g2)
    /\ r1 <> r2.
Proof.
  do 11 eexists.
  split; [demo_eval; reflexivity|].
  split; [demo_eval; reflexivity|].
  split; [demo_eval; reflexivity|].
  intros H. injection H as H _.
  assert (He : 0 < exp (ln (1 + (2 + (3 + 0))))) by apply exp_pos.
  revert H He. generalize (exp (ln (1 + (2 + (3 + 0))))). intros e H He.
  lra.
Qed.

Lemma sample_rate_deterministic_decode_witness :
  exists mode' enc px_scale px_r' px_rate px_dropout g2,
    forward_decode Demo.raw_input [[1; 2; 3]] (Some [1%Z]) None (Some 0%Z) 0%nat
    = Ok ((mode', enc, (px_scale, px_r', px_rate, px_dropout)), g2)
    /\ sample_rate Demo.raw_input [[1; 2; 3]] (Some 0%Z) (Some [1%Z]) None
                   true (Some 0%Z) 0%nat = Ok (px_rate, g2).
Proof.
  do 7 eexists.
  split; [demo_eval; reflexivity|].
  edestruct (@sample_rate_deterministic_decode nat Demo.raw_input
               [[1; 2; 3]] 0%Z (Some [1%Z]) None 0%nat)
    as (_ & _ & Heq); [demo_eval; reflexivity|].
  eapply Heq.
  - repeat f_equal; lra.
  - left. reflexivity.
  - demo_eval. reflexivity.
Defined.

Lemma sample_from_posterior_l_no_default_witness :
  (exists e, sample_from_posterior_l Demo.single [[1; 2; 3]] None true 1%nat
             = Raise e)
  /\ (exists z g',
        sample_from_posterior_z Demo.single [[1; 2; 3]] None true 1%nat
        = Ok (z, g')).
Proof.
  destruct (@sample_from_posterior_l_no_default nat Demo.log_zinb_positive
              Demo.log_nb_positive Demo.Poisson_log_prob Demo.single
              [[1; 2; 3]] true 1%nat) as (Hraise & _ & Hsingle).
  split; [exact Hraise|].
  destruct (Hsingle eq_refl) as [Hz _]. rewrite Hz.
  do 2 eexists. demo_eval. reflexivity.
Defined.

(** * Further properties of the methods *)

(** ** More on [mapM] and indexing *)



(** When [f] can raise only [e], one raising element is enough. *)
Lemma mapM_raise_in {A B} (f : A -> result B) (l : list A) a e :
  (forall a' e', f a' = Raise e' -> e' = e) ->
  In a l -> f a = Raise e -> mapM f l = Raise e.
Proof.
  intros Honly. induction l as [|a1 l IH]; intros Hin Ha; [destruct Hin|].
  simpl. destruct (f a1) as [b|e1] eqn:H1.
  - simpl. destruct Hin as [-> | Hin]; [congruence|].
    rewrite (IH Hin Ha). reflexivity.
  - simpl. f_equal. apply (Honly a1). exact H1.
Qed.

Lemma index_out_of_range {A} (l : list A) (i : Z) :
  (i < - Z.of_nat (length l) \/ Z.of_nat (length l) <= i)%Z ->
  index l (Some i) = Raise IndexError.
Proof.
  intros Hi. rewrite index_position. unfold fancy_position.
  destruct (Z.ltb_spec i 0) as [Hneg|Hpos].
  - destruct (Z.leb_spec 0 (i + Z.of_nat (length l))); [lia|]. reflexivity.
  - destruct (Z.leb_spec 0 i); [|lia].
    destruct (Z.ltb_spec i (Z.of_nat (length l))); [lia|]. reflexivity.
Qed.

Lemma index_in_range {A} (l : list A) (i : Z) :
  (- Z.of_nat (length l) <= i < Z.of_nat (length l))%Z ->
  exists a, index l (Some i) = Ok a.
Proof.
  intros Hi. rewrite index_position. unfold fancy_position.
  destruct (Z.ltb_spec i 0) as [Hneg|Hpos].
  - destruct (Z.leb_spec 0 (i + Z.of_nat (length l))); [|lia].
    destruct (Z.ltb_spec (i + Z.of_nat (length l)) (Z.of_nat (length l))); [|lia].
    simpl.
    destruct (nth_error l (Z.to_nat (i + Z.of_nat (length l)))) as [a|] eqn:Hn;
      [eauto|].
    apply nth_error_None in Hn. lia.
  - destruct (Z.leb_spec 0 i); [|lia].
    destruct (Z.ltb_spec i (Z.of_nat (length l))); [|lia].
    simpl. destruct (nth_error l (Z.to_nat i)) as [a|] eqn:Hn; [eauto|].
    apply nth_error_None in Hn. lia.
Qed.

(** ** One-hot rows select a column of the parameter *)

Lemma rsum_indicator (c s n : nat) (w : list R) :
  length w = n ->
  rsum (map (fun ab => fst ab * snd ab)
            (combine (map (fun k => if (Z.of_nat k =? Z.of_nat c)%Z then 1 else 0)
                          (seq s n)) w))
  = if ((s <=? c) && (c <? s + n))%nat then nth (c - s) w 0 else 0.
Proof.
  revert s w. induction n as [|n IH]; intros s w Hlen.
  - destruct w; [|discriminate]. simpl.
    destruct (s <=? c)%nat eqn:E1; destruct (c <? s + 0)%nat eqn:E2; simpl;
      try reflexivity.
    apply Nat.leb_le in E1. apply Nat.ltb_lt in E2. lia.
  - destruct w as [|a w]; [discriminate|]. injection Hlen as Hlen.
    cbn [seq map combine rsum fold_right fst snd].
    change (fold_right Rplus 0 ?l) with (rsum l). rewrite (IH (S s) w Hlen).
    destruct (Z.eqb_spec (Z.of_nat s) (Z.of_nat c)) as [Heq|Hne].
    + apply Nat2Z.inj in Heq. subst c.
      replace (s <=? s)%nat with true by (symmetry; apply Nat.leb_le; lia).
      replace (s <? s + S n)%nat with true by (symmetry; apply Nat.ltb_lt; lia).
      replace (S s <=? s)%nat with false by (symmetry; apply Nat.leb_gt; lia).
      rewrite Nat.sub_diag. simpl. lra.
    + assert (s <> c) by congruence.
      destruct (Nat.leb_spec (S s) c) as [Hle|Hgt].
      * replace (s <=? c)%nat with true by (symmetry; apply Nat.leb_le; lia).
        replace (c <? s + S n)%nat with (c <? S s + n)%nat by (f_equal; lia).
        destruct (c <? S s + n)%nat; simpl; [|lra].
        replace (c - s)%nat with (S (c - S s)) by lia. simpl. lra.
      * replace (s <=? c)%nat with false by (symmetry; apply Nat.leb_gt; lia).
        simpl. lra.
Qed.

Lemma dot_one_hot_row (c : Z) (n : nat) (w : list R) :
  (0 <= c < Z.of_nat n)%Z -> length w = n ->
  dot (map (fun k => if (Z.of_nat k =? c)%Z then 1 else 0) (seq 0 n)) w
  = Ok (nth (Z.to_nat c) w 0).
Proof.
  intros Hc Hlen. unfold dot. rewrite length_map, length_seq, Hlen, Nat.eqb_refl.
  f_equal. remember (Z.to_nat c) as c' eqn:Hc'.
  assert (Hcc : c = Z.of_nat c') by lia. rewrite Hcc.
  rewrite (rsum_indicator c' 0 w Hlen).
  replace (0 <=? c')%nat with true by (symmetry; apply Nat.leb_le; lia).
  replace (c' <? 0 + n)%nat with true by (symmetry; apply Nat.ltb_lt; lia).
  rewrite Nat.sub_0_r. reflexivity.
Qed.

(** [F.linear(one_hot(index, n), w)]: the row of a cell is the column of
    [w] at the cell's index. *)
Lemma linear_one_hot (index : itensor) (n : nat) (w : tensor) :
  Forall (fun c => (0 <= c < Z.of_nat n)%Z) index ->
  Forall (fun row => length row = n) w ->
  rbind (one_hot index n) (fun oh => F_linear oh w)
  = Ok (map (fun c => map (fun row => nth (Z.to_nat c) row 0) w) index).
Proof.
  intros Hidx Hw. unfold one_hot, F_linear.
  induction Hidx as [|c index Hc _ IH]; [reflexivity|].
  cbn [mapM].
  destruct (Z.leb_spec 0 c); [|lia]. destruct (Z.ltb_spec c (Z.of_nat n)); [|lia].
  cbn [andb rbind].
  destruct (mapM _ index) as [oh|e]; [|discriminate]. cbn [rbind mapM] in *.
  assert (Hrow : mapM (dot (map (fun k => if (Z.of_nat k =? c)%Z then 1 else 0)
                                (seq 0 n))) w
                 = Ok (map (fun row => nth (Z.to_nat c) row 0) w)).
  { clear IH. induction Hw as [|row w Hrow _ IHw]; [reflexivity|].
    cbn [mapM map]. rewrite dot_one_hot_row by assumption. cbn [rbind].
    rewrite IHw. reflexivity. }
  rewrite Hrow. cbn [rbind]. rewrite IH. reflexivity.
Qed.

(** An index outside the categories makes [one_hot] raise. *)
Lemma one_hot_out_of_range (index : itensor) (n : nat) c :
  In c index -> ~ (0 <= c < Z.of_nat n)%Z ->
  one_hot index n = Raise RuntimeError.
Proof.
  intros Hin Hc. unfold one_hot.
  apply mapM_raise_in with (a := c); [| exact Hin |].
  - intros a e. destruct ((0 <=? a) && (a <? Z.of_nat n))%Z; congruence.
  - destruct (Z.leb_spec 0 c); destruct (Z.ltb_spec c (Z.of_nat n));
      simpl; try reflexivity; lia.
Qed.

(** ** Constructed models *)

Section Constructed.

Variable G : Type.
Variable MultiEncoder :
  nat -> list nat -> nat -> nat -> nat -> nat -> R -> string -> result (z_net G).
Variable Encoder : nat -> nat -> nat -> R -> result (l_net G).
Variable MultiDecoder :
  nat -> nat -> nat -> nat -> nat -> nat -> list nat -> R
  -> result (decoder_net G).
Variable randn : nat -> nat -> R.

Variable dim_input_list : list nat.
Variable total : nat.
Variable mappings : list index_mapping.
Variable losses : list string.
Variable bools : list bool.
Variables n_latent n_layers_encoder_individual n_layers_encoder_shared
          dim_hidden_encoder n_layers_decoder_individual
          n_layers_decoder_shared dim_hidden_decoder_individual
          dim_hidden_decoder_shared : nat.
Variables dropout_rate_encoder dropout_rate_decoder : R.
Variables batches labels : nat.
Variable disp : string.
Variable log_var : bool.
Variable mtype : string.


End Constructed.

Lemma one_hot_in_range (index : itensor) (n : nat) (oh : tensor) :
  one_hot index n = Ok oh ->
  Forall (fun c => (0 <= c < Z.of_nat n)%Z) index.
Proof.
  unfold one_hot. intros H. apply mapM_Forall2 in H.
  induction H as [|c row index oh Hc _ IH]; constructor; [|exact IH].
  destruct (Z.leb_spec 0 c); destruct (Z.ltb_spec c (Z.of_nat n));
    simpl in Hc; try discriminate. lia.
Qed.

Section ConstructedMethods.

Variable G : Type.
Variable MultiEncoder :
  nat -> list nat -> nat -> nat -> nat -> nat -> R -> string -> result (z_net G).
Variable Encoder : nat -> nat -> nat -> R -> result (l_net G).
Variable MultiDecoder :
  nat -> nat -> nat -> nat -> nat -> nat -> list nat -> R
  -> result (decoder_net G).
Variable randn : nat -> nat -> R.

Variable dim_input_list : list nat.
Variable total : nat.
Variable mappings : list index_mapping.
Variable losses : list string.
Variable bools : list bool.
Variables n_latent n_layers_encoder_individual n_layers_encoder_shared
          dim_hidden_encoder n_layers_decoder_individual
          n_layers_decoder_shared dim_hidden_decoder_individual
          dim_hidden_decoder_shared : nat.
Variables dropout_rate_encoder dropout_rate_decoder : R.
Variables batches labels : nat.
Variable disp : string.
Variable log_var : bool.
Variable mtype : string.
Variable self : JVAE G.

Hypothesis Hinit :
  JVAE_init MultiEncoder Encoder MultiDecoder randn
            dim_input_list total mappings losses bools
            n_latent n_layers_encoder_individual n_layers_encoder_shared
            dim_hidden_encoder n_layers_decoder_individual
            n_layers_decoder_shared dim_hidden_decoder_individual
            dim_hidden_decoder_shared dropout_rate_encoder dropout_rate_decoder
            batches labels disp log_var mtype = Ok self.

(** With as many flags as datasets, the library encoder at a mode whose
    flag is true is the one built for that mode's input width. *)
Lemma init_l_encoder_at mode :
  length bools = length dim_input_list ->
  index bools mode = Ok true ->
  exists n enc,
    index dim_input_list mode = Ok n
    /\ Encoder n 1 1 dropout_rate_encoder = Ok enc
    /\ index (l_encoders self) mode = Ok (Some enc).
Proof.
  intros Hlen Hflag.
  unfold JVAE_init in Hinit.
  apply rbind_Ok in Hinit as (zenc & _ & Hinit).
  apply rbind_Ok in Hinit as (ls & Hls & Hinit).
  apply rbind_Ok in Hinit as (dec & _ & Hself).
  injection Hself as <-. cbn [l_encoders].
  destruct mode as [i|]; [|discriminate].
  assert (Hlls : length ls = length bools).
  { apply mapM_length in Hls. rewrite length_seq in Hls. congruence. }
  rewrite index_position in Hflag. rewrite !index_position.
  rewrite Hlls, <- Hlen.
  destruct (fancy_position (length bools) i) as [j|e]; [|discriminate].
  cbn [rbind] in Hflag |- *.
  destruct (nth_error bools j) as [b|] eqn:Hb; [|discriminate].
  injection Hflag as ->.
  assert (Hj : (j < length dim_input_list)%nat)
    by (rewrite <- Hlen; apply nth_error_Some; congruence).
  assert (Hseq : nth_error (seq 0 (length dim_input_list)) j = Some j).
  { rewrite nth_error_seq. apply Nat.ltb_lt in Hj. rewrite Hj. reflexivity. }
  destruct (mapM_nth_error _ _ _ Hls Hseq) as (enc & Henc & Hf).
  cbv beta in Hf. rewrite (index_nat _ _ Hb) in Hf. cbn [rbind] in Hf.
  destruct (nth_error dim_input_list j) as [n|] eqn:Hn;
    [|apply nth_error_None in Hn; lia].
  rewrite (index_nat _ _ Hn) in Hf. cbn [rbind] in Hf.
  apply rbind_Ok in Hf as (l_encoder & Hl & Hf). injection Hf as <-.
  exists n, l_encoder. rewrite Henc. repeat split. exact Hl.
Qed.

(** X2.  In a model constructed with as many library flags as datasets,
    [encode] at a mode whose flag is true runs the latent encoder and then
    the library encoder built for that mode's input width, both on
    [log(1 + x)] when [log_variational] is set, and raises only if one of
    the two networks raises. *)
Theorem constructed_encode_modelled_library mode x g :
  length bools = length dim_input_list ->
  index bools mode = Ok true ->
  exists n l_encoder,
    index dim_input_list mode = Ok n
    /\ Encoder n 1 1 dropout_rate_encoder = Ok l_encoder
    /\ encode self x mode g
       = match z_encoder self
                 (if log_var then tmap (fun v => ln (1 + v)) x else x) mode g with
         | Ok ((qz_m, qz_v, z), g1) =>
             match l_encoder
                     (if log_var then tmap (fun v => ln (1 + v)) x else x) g1 with
             | Ok ((ql_m, ql_v, library), g2) =>
                 Ok ((qz_m, qz_v, z, Some ql_m, Some ql_v, library), g2)
             | Raise e => Raise e
             end
         | Raise e => Raise e
         end.
Proof.
  intros Hlen Hflag.
  destruct (init_l_encoder_at mode Hlen Hflag) as (n & l_encoder & Hn & Hl & Henc).
  exists n, l_encoder. split; [exact Hn|]. split; [exact Hl|].
  pose proof Hinit as Hattr. apply init_attributes in Hattr.
  destruct Hattr as (_ & _ & _ & _ & Hbools & _ & _ & _ & Hlog).
  unfold encode, bind. rewrite Hlog.
  destruct (z_encoder self _ mode g) as [[[[qz_m qz_v] z] g1]|e]; [|reflexivity].
  unfold lift. rewrite Hbools, Hflag, Henc.
  destruct (l_encoder _ g1)
    as [[[[ql_m ql_v] library] g2]|e]; reflexivity.
Qed.

(** X3.  In a constructed model the dispersion returned by a successful
    [decode] is read off the owned parameter: under "gene" it is the single
    row [exp(px_r[g])]; under "gene-batch" every batch index lies in
    [0, n_batch) and the row of a cell holds [exp(px_r[g, b])] for the
    cell's batch [b]; under "gene-label" the same with [y] and
    [n_labels]. *)
Theorem constructed_decode_dispersion z mode library batch_index y g
        px_scale px_r' px_rate px_dropout g' :
  decode self z mode library batch_index y g
  = Ok ((px_scale, px_r', px_rate, px_dropout), g') ->
  (disp = "gene" ->
   px_r' = [map (fun gene => exp (randn gene 0)) (seq 0 total)])
  /\ (disp = "gene-batch" ->
      exists b,
        batch_index = Some b
        /\ Forall (fun c => (0 <= c < Z.of_nat batches)%Z) b
        /\ px_r' = map (fun c => map (fun gene => exp (randn gene (Z.to_nat c)))
                                     (seq 0 total)) b)
  /\ (disp = "gene-label" ->
      exists l,
        y = Some l
        /\ Forall (fun c => (0 <= c < Z.of_nat labels)%Z) l
        /\ px_r' = map (fun c => map (fun gene => exp (randn gene (Z.to_nat c)))
                                     (seq 0 total)) l).
Proof.
  intros Hrun.
  apply decode_Ok in Hrun
    as (rs & rr & rt & res & mp & gt & _ & Hres & -> & _).
  pose proof Hinit as Hattr. apply init_attributes in Hattr.
  destruct Hattr as (_ & Htot & _ & _ & _ & Hnb & Hnl & Hdisp & _).
  pose proof Hinit as Hpx. apply init_px_r in Hpx.
  destruct Hpx as (Hg & Hb & Hl & _).
  rewrite Htot, Hnb, Hnl, Hdisp in *.
  assert (Hcol : forall k (idx : itensor),
             map (fun c => map (fun row => nth (Z.to_nat c) row 0) (randn2 randn total k)) idx
             = map (fun c => map (fun gene => nth (Z.to_nat c) (map (randn gene) (seq 0 k)) 0)
                                 (seq 0 total)) idx).
  { intros k idx. apply map_ext. intros c. unfold randn2. rewrite map_map.
    reflexivity. }
  assert (Hnth : forall k gene c, (0 <= c < Z.of_nat k)%Z ->
             nth (Z.to_nat c) (map (randn gene) (seq 0 k)) 0 = randn gene (Z.to_nat c)).
  { intros k gene c Hc.
    rewrite (nth_indep _ 0 (randn gene 0%nat))
      by (rewrite length_map, length_seq; lia).
    rewrite map_nth, seq_nth by lia. reflexivity. }
  unfold resolve_px_r in Hres. rewrite Hdisp, Hnb, Hnl in Hres.
  repeat split.
  - intros ->. cbn in Hres. unfold px_r_row in Hres.
    destruct (Hg eq_refl) as [Hp _]. rewrite Hp in Hres. injection Hres as <-.
    unfold texp, tmap, randn1. cbn [map]. rewrite map_map. reflexivity.
  - intros ->. cbn in Hres.
    destruct batch_index as [b|]; [|discriminate]. cbn [the_index rbind] in Hres.
    destruct (one_hot b batches) as [oh|e] eqn:Hoh; [|discriminate].
    cbn [rbind] in Hres.
    destruct (Hb eq_refl) as (Hp & _ & Hw). unfold px_r_matrix in Hres.
    rewrite Hp in Hres. cbn [rbind] in Hres.
    pose proof (one_hot_in_range _ _ Hoh) as Hrange.
    pose proof (linear_one_hot Hrange Hw) as Hlin.
    rewrite Hoh in Hlin. cbn [rbind] in Hlin. rewrite Hlin in Hres.
    injection Hres as <-.
    exists b. repeat split; [exact Hrange|].
    rewrite Hcol. unfold texp, tmap. rewrite map_map.
    apply map_ext_in. intros c Hc. rewrite map_map. apply map_ext. intros gene.
    rewrite Hnth; [reflexivity|]. rewrite Forall_forall in Hrange. auto.
  - intros ->. cbn in Hres.
    destruct y as [l|]; [|discriminate]. cbn [the_index rbind] in Hres.
    destruct (one_hot l labels) as [oh|e] eqn:Hoh; [|discriminate].
    cbn [rbind] in Hres.
    destruct (Hl eq_refl) as (Hp & _ & Hw). unfold px_r_matrix in Hres.
    rewrite Hp in Hres. cbn [rbind] in Hres.
    pose proof (one_hot_in_range _ _ Hoh) as Hrange.
    pose proof (linear_one_hot Hrange Hw) as Hlin.
    rewrite Hoh in Hlin. cbn [rbind] in Hlin. rewrite Hlin in Hres.
    injection Hres as <-.
    exists l. repeat split; [exact Hrange|].
    rewrite Hcol. unfold texp, tmap. rewrite map_map.
    apply map_ext_in. intros c Hc. rewrite map_map. apply map_ext. intros gene.
    rewrite Hnth; [reflexivity|]. rewrite Forall_forall in Hrange. auto.
Qed.

End ConstructedMethods.


Lemma constructed_encode_modelled_library_witness :
  exists qz_m qz_v z ql_m ql_v library g',
    encode Demo.joint [[1; 2; 3; 4]] (Some 1%Z) 1%nat
    = Ok ((qz_m, qz_v, z, Some ql_m, Some ql_v, library), g').
Proof.
  assert (Hinit : Demo.two_panels "gene-batch" true = Ok Demo.joint)
    by reflexivity.
  unfold Demo.two_panels, Demo.model in Hinit.
  destruct (constructed_encode_modelled_library _ _ _ _ _ _ _ _ _ _ _ _ _ _ _ _ _ _ _ _ _ _ _ _ Hinit
              (Some 1%Z) [[1; 2; 3; 4]] 1%nat)
    as (n & l_encoder & Hn & Hl & Henc); [reflexivity | reflexivity |].
  injection Hn as <-. injection Hl as <-. rewrite Henc.
  do 7 eexists. demo_eval. reflexivity.
Defined.

Lemma constructed_decode_dispersion_witness :
  exists px_scale px_r' px_rate px_dropout,
    decode Demo.joint [[1; 2; 3]; [4; 5; 6]] (Some 0%Z) (view_col [0; 0])
           (Some [1; 0]%Z) None 1%nat
    = Ok ((px_scale, px_r', px_rate, px_dropout), 1%nat)
    /\ px_r' = map (fun c => map (fun gene => exp (Demo.randn gene (Z.to_nat c)))
                                 (seq 0 7)) [1; 0]%Z.
Proof.
  assert (Hinit : Demo.two_panels "gene-batch" true = Ok Demo.joint)
    by reflexivity.
  unfold Demo.two_panels, Demo.model in Hinit.
  do 4 eexists. split; [demo_eval; reflexivity|].
  edestruct (constructed_decode_dispersion _ _ _ _ _ _ _ _ _ _ _ _ _ _ _ _ _ _ _ _ _ _ _ _ Hinit
               [[1; 2; 3]; [4; 5; 6]] (Some 0%Z) (view_col [0; 0])
               (Some [1; 0]%Z) None 1%nat) as (_ & Hbatch & _);
    [demo_eval; reflexivity|].
  destruct (Hbatch eq_refl) as (b & Hb & _ & Hpx). injection Hb as <-.
  exact Hpx.
Defined.

(** ** More on gathers *)

Lemma rsum_map_mult (e : R) (r : list R) :
  rsum (map (fun a => a * e) r) = rsum r * e.
Proof.
  induction r as [|a r IH]; simpl; [lra|]. rewrite IH. lra.
Qed.

Lemma gather_scale_rows (f : R -> R -> R) (t gathered : tensor) idx (v : vec) :
  (forall s, f 0 s = 0) ->
  gather t idx = Ok gathered ->
  gather (scale_rows f t v) idx = Ok (scale_rows f gathered v).
Proof.
  unfold gather, scale_rows. destruct (int64_index idx); [|discriminate].
  intros Hf H. apply mapM_Forall2 in H. revert v.
  induction H as [|row grow t gathered Hrow _ IH]; intros [|s v]; simpl;
    try reflexivity.
  rewrite (@gather_row_map (fun a => f a s) idx row grow (Hf s) Hrow).
  simpl. rewrite IH. reflexivity.
Qed.

Lemma map_nth_seq (row : list R) :
  map (fun p => nth p row 0) (seq 0 (length row)) = row.
Proof.
  induction row as [|a row IH]; [reflexivity|].
  cbn [length seq map nth]. f_equal.
  rewrite <- seq_shift, map_map. exact IH.
Qed.

(** [t[:, slice(None)]] is [t]. *)
Lemma gather_full_slice (t : tensor) : gather t (Slice None None None) = Ok t.
Proof.
  unfold gather. cbn [int64_index].
  induction t as [|row t IH]; [reflexivity|].
  cbn [mapM]. rewrite IH.
  assert (Hrow : gather_row (Slice None None None) row = Ok row).
  { unfold gather_row, positions, slice_positions.
    cbn [Z.leb Z.compare]. cbn match.
    replace (if (Z.of_nat (length row) <? 0)%Z then 0%Z else Z.of_nat (length row))
      with (Z.of_nat (length row))
      by (destruct (Z.ltb_spec (Z.of_nat (length row)) 0); lia).
    replace (Z.to_nat ((Z.of_nat (length row) - 0 + 1 - 1) / 1)) with (length row)
      by (rewrite Z.div_1_r; lia).
    unfold rmap. cbn [rbind]. f_equal. rewrite map_map.
    rewrite <- (map_nth_seq row) at 2. apply map_ext. intros k.
    f_equal. lia. }
  rewrite Hrow. reflexivity.
Qed.

(** ** More on [decode] *)

Lemma int64_index_false (l : list Z) (i : Z) :
  In i l -> (i < - 2 ^ 63 \/ 2 ^ 63 <= i)%Z ->
  int64_index (Indices l) = false.
Proof.
  intros Hin Hi. cbn [int64_index].
  destruct (forallb int64 l) eqn:E; [|reflexivity].
  rewrite forallb_forall in E. specialize (E i Hin).
  unfold int64 in E. apply andb_prop in E as [E1 E2].
  apply Z.leb_le in E1. apply Z.ltb_lt in E2. lia.
Qed.

Lemma int64_index_true (l : list Z) :
  Forall (fun i => (- 2 ^ 63 <= i < 2 ^ 63)%Z) l ->
  int64_index (Indices l) = true.
Proof.
  intros H. cbn [int64_index]. apply forallb_forall. intros i Hi.
  rewrite Forall_forall in H. specialize (H i Hi). unfold int64.
  apply andb_true_intro. split; [apply Z.leb_le | apply Z.ltb_lt]; lia.
Qed.

Lemma gather_index_error (t : tensor) (row : list R) (l : list Z) (i : Z) :
  Forall (fun i => (- 2 ^ 63 <= i < 2 ^ 63)%Z) l ->
  In i l ->
  (i < - Z.of_nat (length row) \/ Z.of_nat (length row) <= i)%Z ->
  gather (row :: t) (Indices l) = Raise IndexError.
Proof.
  intros H64 Hin Hi. unfold gather. rewrite (int64_index_true H64). cbn [mapM].
  assert (Hrow : gather_row (Indices l) row = Raise IndexError).
  { unfold gather_row, positions.
    rewrite (@mapM_raise_in _ _ (fancy_position (length row)) l i IndexError);
      [reflexivity | | exact Hin |].
    - intros a e. unfold fancy_position.
      destruct ((0 <=? _) && _)%Z; congruence.
    - unfold fancy_position.
      destruct (Z.ltb_spec i 0).
      + destruct (Z.leb_spec 0 (i + Z.of_nat (length row))); [lia|]. reflexivity.
      + destruct (Z.leb_spec 0 i); [|lia].
        destruct (Z.ltb_spec i (Z.of_nat (length row))); [lia|]. reflexivity. }
  rewrite Hrow. reflexivity.
Qed.

Section DecodeFurther.

Variable G : Type.
Variable self : JVAE G.

(** X4.  Once the decoder network has returned, [decode] raises
    AttributeError when the covariate of the dispersion mode ([batch_index]
    under "gene-batch", [y] under "gene-label") is [None], and RuntimeError
    when one of its entries is not a category; once the dispersion is
    resolved it raises TypeError for the mode [None] and IndexError for a
    mode outside the registered mappings; for a registered integer-array
    mapping it raises ValueError when an entry does not fit a 64-bit
    integer, and otherwise, if the decoder returned at least one cell,
    IndexError when an entry is outside the decoder's output width. *)
Theorem decode_raises z mode library batch_index y g
        raw_scale raw_r raw_rate raw_dropout g0 :
  decoder self z mode library (dispersion self) batch_index y g
  = Ok ((raw_scale, raw_r, raw_rate, raw_dropout), g0) ->
  (dispersion self = "gene-batch" ->
   (batch_index = None ->
    decode self z mode library batch_index y g = Raise AttributeError)
   /\ (forall b c, batch_index = Some b -> In c b ->
                   ~ (0 <= c < Z.of_nat (n_batch self))%Z ->
                   decode self z mode library batch_index y g = Raise RuntimeError))
  /\ (dispersion self = "gene-label" ->
      (y = None ->
       decode self z mode library batch_index y g = Raise AttributeError)
      /\ (forall l c, y = Some l -> In c l ->
                      ~ (0 <= c < Z.of_nat (n_labels self))%Z ->
                      decode self z mode library batch_index y g = Raise RuntimeError))
  /\ (forall resolved,
        resolve_px_r self raw_r batch_index y = Ok resolved ->
        (mode = None ->
         decode self z mode library batch_index y g = Raise TypeError)
        /\ (forall i, mode = Some i ->
                      (i < - Z.of_nat (length (indices_mappings self))
                       \/ Z.of_nat (length (indices_mappings self)) <= i)%Z ->
                      decode self z mode library batch_index y g = Raise IndexError)
        /\ (forall l i,
              index (indices_mappings self) mode = Ok (Indices l) ->
              In i l -> (i < - 2 ^ 63 \/ 2 ^ 63 <= i)%Z ->
              decode self z mode library batch_index y g = Raise ValueError)
        /\ (forall l row rest i,
              index (indices_mappings self) mode = Ok (Indices l) ->
              Forall (fun i => (- 2 ^ 63 <= i < 2 ^ 63)%Z) l ->
              raw_scale = row :: rest -> In i l ->
              (i < - Z.of_nat (length row) \/ Z.of_nat (length row) <= i)%Z ->
              decode self z mode library batch_index y g = Raise IndexError)).
Proof.
  intros Hdec.
  assert (Hres : forall e, resolve_px_r self raw_r batch_index y = Raise e ->
                           decode self z mode library batch_index y g = Raise e).
  { intros e He. unfold decode, bind, lift. rewrite Hdec, He. reflexivity. }
  split; [|split].
  - intros Hd. split.
    + intros ->. apply Hres. unfold resolve_px_r. rewrite Hd. reflexivity.
    + intros b c -> Hin Hc. apply Hres. unfold resolve_px_r. rewrite Hd.
      cbn [String.eqb Ascii.eqb Bool.eqb the_index rbind].
      rewrite (@one_hot_out_of_range _ _ c Hin Hc). reflexivity.
  - intros Hd. split.
    + intros ->. apply Hres. unfold resolve_px_r. rewrite Hd. reflexivity.
    + intros l c -> Hin Hc. apply Hres. unfold resolve_px_r. rewrite Hd.
      cbn [String.eqb Ascii.eqb Bool.eqb the_index rbind].
      rewrite (@one_hot_out_of_range _ _ c Hin Hc). reflexivity.
  - intros resolved Hr. repeat split.
    + intros ->. unfold decode, bind, lift. rewrite Hdec, Hr. reflexivity.
    + intros i -> Hi. unfold decode, bind, lift. rewrite Hdec, Hr.
      rewrite (@index_out_of_range _ _ i Hi). reflexivity.
    + intros l i Hmap Hin Hi. unfold decode, bind, lift.
      rewrite Hdec, Hr, Hmap. unfold gather.
      rewrite (@int64_index_false l i Hin Hi). reflexivity.
    + intros l row rest i Hmap H64 -> Hin Hi. unfold decode, bind, lift.
      rewrite Hdec, Hr, Hmap.
      rewrite (@gather_index_error rest row l i H64 Hin Hi).
      reflexivity.
Qed.

(** X5.  With one library value per cell and a non-zero raw sum over the
    mode's panel, the [px_rate] returned by [decode], gathered at the
    mode's mapping, sums in every cell to [exp(library)] of that cell: the
    expected counts over the observed genes add up to the library size. *)
Theorem decode_px_rate_panel_sum z mode library batch_index y g
        px_scale px_r' px_rate px_dropout g'
        raw_scale raw_r raw_rate raw_dropout g0 mapping raw_gathered lib :
  decoder self z mode library (dispersion self) batch_index y g
  = Ok ((raw_scale, raw_r, raw_rate, raw_dropout), g0) ->
  index (indices_mappings self) mode = Ok mapping ->
  gather raw_scale mapping = Ok raw_gathered ->
  Forall (fun row => rsum row <> 0) raw_gathered ->
  library = view_col lib ->
  length lib = length raw_scale ->
  decode self z mode library batch_index y g
  = Ok ((px_scale, px_r', px_rate, px_dropout), g') ->
  exists g_rate,
    gather px_rate mapping = Ok g_rate
    /\ sum_dim1 g_rate = map exp lib.
Proof.
  intros Hdec Hmap Hgat Hnz -> Hlen Hrun.
  destruct (decode_panel _ _ _ _ _ _ _ Hdec Hmap Hgat Hrun) as [Hps Hpanel].
  apply decode_Ok in Hrun as (_ & _ & _ & _ & _ & _ & _ & _ & _ & _ & _ & _ & Hrate).
  assert (Hrows : length raw_gathered = length raw_scale)
    by (eapply gather_length; exact Hgat).
  assert (Hpsl : length px_scale = length lib).
  { subst px_scale. unfold divide_rows, scale_rows, sum_dim1.
    rewrite length_map, length_combine, length_map. lia. }
  rewrite texp_view_col in Hrate. unfold tmul in Hrate.
  rewrite tbcast_view_col in Hrate by (rewrite length_map; exact Hpsl).
  injection Hrate as <-.
  rewrite (@gather_scale_rows Rmult _ _ _ (map exp lib) Rmult_0_l Hpanel).
  eexists. split; [reflexivity|].
  assert (Hgen : forall (gs : tensor) (es : vec),
             length gs = length es ->
             Forall (fun row => rsum row <> 0) gs ->
             sum_dim1 (scale_rows Rmult
                         (map (fun row => map (fun a => a / rsum row) row) gs) es)
             = es).
  { induction gs as [|row gs IH]; intros [|e es] Hl Hf; try discriminate;
      [reflexivity|].
    inversion Hf; subst. unfold sum_dim1, scale_rows in *. cbn [map combine fst snd].
    rewrite rsum_map_mult, rsum_renormalized by assumption.
    f_equal; [lra|]. apply IH; [simpl in Hl; lia | assumption]. }
  apply Hgen; [rewrite length_map; lia | exact Hnz].
Qed.

(** X6.  When the mode's mapping is the full slice [slice(None)], [decode]
    divides every row of the raw scale by its total, and [px_scale] sums to
    1 over all genes in every cell whose raw total is non-zero. *)
Theorem decode_full_slice z mode library batch_index y g
        px_scale px_r' px_rate px_dropout g'
        raw_scale raw_r raw_rate raw_dropout g0 :
  decoder self z mode library (dispersion self) batch_index y g
  = Ok ((raw_scale, raw_r, raw_rate, raw_dropout), g0) ->
  index (indices_mappings self) mode = Ok (Slice None None None) ->
  decode self z mode library batch_index y g
  = Ok ((px_scale, px_r', px_rate, px_dropout), g') ->
  px_scale = map (fun row => map (fun a => a / rsum row) row) raw_scale
  /\ (Forall (fun row => rsum row <> 0) raw_scale ->
      sum_dim1 px_scale = map (fun _ => 1) raw_scale).
Proof.
  intros Hdec Hmap Hrun.
  destruct (decode_panel _ _ _ _ _ _ _ Hdec Hmap (gather_full_slice raw_scale) Hrun)
    as [_ Hpanel].
  rewrite gather_full_slice in Hpanel. injection Hpanel as ->.
  split; [reflexivity|].
  intros Hnz. unfold sum_dim1. rewrite map_map.
  apply map_ext_in. intros row Hrow. apply rsum_renormalized.
  rewrite Forall_forall in Hnz. auto.
Qed.

End DecodeFurther.

Lemma decode_raises_witness :
  decode Demo.joint [[1; 2; 3]] (Some 0%Z) [[0]] None None 1%nat
  = Raise AttributeError
  /\ decode Demo.joint [[1; 2; 3]] (Some 0%Z) [[0]] (Some [5%Z]) None 1%nat
     = Raise RuntimeError
  /\ decode Demo.joint [[1; 2; 3]] (Some 2%Z) [[0]] (Some [1%Z]) None 1%nat
     = Raise IndexError
  /\ decode Demo.oversized [[1; 2; 3]] (Some 0%Z) [[0]] None None 1%nat
     = Raise ValueError
  /\ decode Demo.misplaced [[1; 2; 3]] (Some 0%Z) [[0]] None None 1%nat
     = Raise IndexError.
Proof.
  split; [|split; [|split; [|split]]].
  - edestruct (@decode_raises nat Demo.joint [[1; 2; 3]] (Some 0%Z) [[0]]
                 None None 1%nat) as (Hbatch & _); [demo_eval; reflexivity|].
    apply Hbatch; reflexivity.
  - edestruct (@decode_raises nat Demo.joint [[1; 2; 3]] (Some 0%Z) [[0]]
                 (Some [5%Z]) None 1%nat) as (Hbatch & _);
      [demo_eval; reflexivity|].
    destruct (Hbatch eq_refl) as [_ Hrange].
    apply (Hrange [5%Z] 5%Z); [reflexivity | left; reflexivity | simpl; lia].
  - edestruct (@decode_raises nat Demo.joint [[1; 2; 3]] (Some 2%Z) [[0]]
                 (Some [1%Z]) None 1%nat) as (_ & _ & Hmode);
      [demo_eval; reflexivity|].
    edestruct Hmode as (_ & Hrange & _); [demo_eval; reflexivity|].
    apply (Hrange 2%Z); [reflexivity | simpl; lia].
  - edestruct (@decode_raises nat Demo.oversized [[1; 2; 3]] (Some 0%Z) [[0]]
                 None None 1%nat) as (_ & _ & Hmode);
      [demo_eval; reflexivity|].
    edestruct Hmode as (_ & _ & Hwide & _); [demo_eval; reflexivity|].
    apply (Hwide [0; 1; 9223372036854775808]%Z 9223372036854775808%Z);
      [reflexivity | simpl; auto | right; apply Z.le_refl].
  - edestruct (@decode_raises nat Demo.misplaced [[1; 2; 3]] (Some 0%Z) [[0]]
                 None None 1%nat) as (_ & _ & Hmode);
      [demo_eval; reflexivity|].
    edestruct Hmode as (_ & _ & _ & Hgene); [demo_eval; reflexivity|].
    eapply (Hgene [0; 1; 7]%Z _ _ 7%Z);
      [reflexivity | repeat constructor; lia | demo_eval; reflexivity
      | simpl; auto | simpl; lia].
Defined.

Lemma decode_px_rate_panel_sum_witness :
  exists px_scale px_r' px_rate px_dropout g_rate,
    decode Demo.joint [[1; 2; 3]] (Some 0%Z) (view_col [0]) (Some [1%Z]) None 1%nat
    = Ok ((px_scale, px_r', px_rate, px_dropout), 1%nat)
    /\ gather px_rate (Indices [0; 1; 2]%Z) = Ok g_rate
    /\ sum_dim1 g_rate = [exp 0].
Proof.
  edestruct (@decode_px_rate_panel_sum nat Demo.joint [[1; 2; 3]] (Some 0%Z)
               (view_col [0]) (Some [1%Z]) None 1%nat)
    as (g_rate & Hg & Hsum).
  - demo_eval. reflexivity.
  - demo_eval. reflexivity.
  - demo_eval. reflexivity.
  - repeat constructor. cbv [rsum fold_right]. lra.
  - reflexivity.
  - reflexivity.
  - demo_eval. reflexivity.
  - do 4 eexists. exists g_rate. split; [demo_eval; reflexivity|].
    split; [exact Hg | exact Hsum].
Defined.

Lemma decode_full_slice_witness :
  exists px_scale px_r' px_rate px_dropout,
    decode Demo.single [[1; 2; 3]] (Some 0%Z) [[0]] None None 1%nat
    = Ok ((px_scale, px_r', px_rate, px_dropout), 1%nat)
    /\ sum_dim1 px_scale = [1].
Proof.
  do 4 eexists. split; [demo_eval; reflexivity|].
  edestruct (@decode_full_slice nat Demo.single [[1; 2; 3]] (Some 0%Z) [[0]]
               None None 1%nat) as (_ & Hsum).
  - demo_eval. reflexivity.
  - reflexivity.
  - demo_eval. reflexivity.
  - apply Hsum. repeat constructor. cbv [rsum fold_right]. lra.
Defined.

(** ** More on the sampling accessors *)

Lemma sum_normalized_panel (t gs : tensor) :
  length gs = length t ->
  Forall (fun row => rsum row <> 0) gs ->
  sum_dim1 (map (fun row => map (fun a => a / rsum row) row) gs)
  = map (fun _ => 1) (divide_rows t (sum_dim1 gs)).
Proof.
  unfold sum_dim1, divide_rows, scale_rows. rewrite !map_map.
  revert t. induction gs as [|r gs IH]; intros [|row t] Hl Hf;
    simpl in *; try reflexivity; try discriminate.
  inversion Hf; subst. rewrite rsum_renormalized by assumption.
  f_equal. apply IH; [lia | assumption].
Qed.

Section SamplingFurther.

Variable G : Type.
Variable self : JVAE G.

(** X7.  On the same inputs and generator state, [sample_scale] and
    [sample_rate] run the same [encode] and [decode]: one returns exactly
    when the other does, with the same final generator state, and the rate
    is the scale times [exp] of the library that was decoded ([ql_m] under
    [deterministic] when the library is modelled, the library returned by
    [encode] otherwise); they raise the same exceptions. *)
Theorem sample_scale_and_rate x mode batch_index y deterministic decode_mode g :
  (forall px_scale g',
      sample_scale self x mode batch_index y deterministic decode_mode g
      = Ok (px_scale, g') ->
      exists px_rate qz_m qz_v z ql_m ql_v library g1,
        encode self x mode g = Ok ((qz_m, qz_v, z, ql_m, ql_v, library), g1)
        /\ sample_rate self x mode batch_index y deterministic decode_mode g
           = Ok (px_rate, g')
        /\ tmul px_scale
                (texp (if deterministic
                       then match ql_m with Some ql_m => ql_m | None => library end
                       else library))
           = Ok px_rate)
  /\ (forall px_rate g',
        sample_rate self x mode batch_index y deterministic decode_mode g
        = Ok (px_rate, g') ->
        exists px_scale,
          sample_scale self x mode batch_index y deterministic decode_mode g
          = Ok (px_scale, g'))
  /\ (forall e,
        sample_scale self x mode batch_index y deterministic decode_mode g = Raise e
        <-> sample_rate self x mode batch_index y deterministic decode_mode g
            = Raise e).
Proof.
  unfold sample_scale, sample_rate, bind.
  destruct (encode self x mode g)
    as [[[[[[[qz_m qz_v] z] ql_m] ql_v] library] g1]|e0].
  - destruct (decode self (if deterministic then qz_m else z) _ _ batch_index y g1)
      as [[[[[ps pr] prate] pd] g2]|e1] eqn:Hdec.
    + split; [|split].
      * intros px_scale g' H. unfold ret in H. injection H as <- <-.
        exists prate, qz_m, qz_v, z, ql_m, ql_v, library, g1.
        repeat split.
        apply decode_Ok in Hdec
          as (_ & _ & _ & _ & _ & _ & _ & _ & _ & _ & _ & _ & Hrate).
        exact Hrate.
      * intros px_rate g' H. unfold ret in H. injection H as <- <-.
        exists ps. reflexivity.
      * intros e. unfold ret. split; discriminate.
    + split; [|split]; try discriminate.
      intros e. split; intros H; exact H.
  - split; [|split]; try discriminate.
    intros e. split; intros H; exact H.
Qed.

(** X8.  If the decoder network only returns positive scales (a softmax),
    the [px_scale] returned by [sample_scale] is normalised over the panel
    of the decode mode ([decode_mode], or [mode] when it is [None]), not
    over the panel of the encode mode: gathered at that mapping, it sums to
    1 in every cell as soon as the mapping selects a column. *)
Theorem sample_scale_decode_panel x mode batch_index y deterministic decode_mode
        g px_scale g' :
  (forall z m lib d b l g0 s r rt dp g1,
      decoder self z m lib d b l g0 = Ok ((s, r, rt, dp), g1) ->
      Forall (Forall (fun a => 0 < a)) s) ->
  sample_scale self x mode batch_index y deterministic decode_mode g
  = Ok (px_scale, g') ->
  exists mapping gathered,
    index (indices_mappings self)
          (match decode_mode with None => mode | Some _ => decode_mode end)
    = Ok mapping
    /\ gather px_scale mapping = Ok gathered
    /\ (Forall (fun row => row <> []) gathered ->
        sum_dim1 gathered = map (fun _ => 1) px_scale).
Proof.
  intros Hpos Hrun. unfold sample_scale in Hrun.
  run_bind Hrun as enc g1 Henc.
  destruct enc as [[[[[qz_m qz_v] z] ql_m] ql_v] library].
  run_bind Hrun as dec g2 Hdec.
  destruct dec as [[[ps pr] prate] pd].
  apply ret_Ok in Hrun as [-> ->].
  apply decode_Ok in Hdec
    as (rs & rr & rt & res & mp & gt & Hnet & _ & _ & Hmap & Hgat & -> & _).
  exists mp, (map (fun row => map (fun a => a / rsum row) row) gt).
  split; [exact Hmap|]. split; [apply gather_divide_rows; exact Hgat|].
  intros Hne. apply sum_normalized_panel.
  - eapply gather_length. exact Hgat.
  - eapply gather_positive_nonzero;
      [eapply Hpos; exact Hnet | exact Hgat |].
    apply Forall_forall. intros row Hrow.
    rewrite Forall_forall in Hne.
    specialize (Hne (map (fun a => a / rsum row) row) (in_map _ _ _ Hrow)).
    intros ->. apply Hne. reflexivity.
Qed.

(** X9.  [sample_from_posterior_l] at a mode that does not model the
    library returns [log(sum(x, dim=1))] whatever [deterministic] is, as
    soon as the latent encoder returns; at a mode that models it, it
    returns the mean [ql_m] of the library encoder under [deterministic]
    and its sample otherwise. *)
Theorem sample_from_posterior_l_library x mode flag :
  index (model_library_bools self) mode = Ok flag ->
  (flag = false ->
   forall deterministic g,
     sample_from_posterior_l self x mode deterministic g
     = match z_encoder self
               (if log_variational self then tmap (fun v => ln (1 + v)) x else x)
               mode g with
       | Ok (_, g1) => Ok (view_col (map ln (sum_dim1 x)), g1)
       | Raise e => Raise e
       end)
  /\ (flag = true ->
      forall deterministic g lib g',
        sample_from_posterior_l self x mode deterministic g = Ok (lib, g') ->
        exists qz_m qz_v z ql_m ql_v library,
          encode self x mode g
          = Ok ((qz_m, qz_v, z, Some ql_m, Some ql_v, library), g')
          /\ lib = if deterministic then ql_m else library).
Proof.
  intros Hflag. split.
  - intros -> deterministic g.
    unfold sample_from_posterior_l, encode, bind.
    destruct (z_encoder self _ mode g) as [[[[qz_m qz_v] z] g1]|e]; [|reflexivity].
    unfold lift. rewrite Hflag. reflexivity.
  - intros -> deterministic g lib g' Hrun.
    unfold sample_from_posterior_l in Hrun.
    run_bind Hrun as enc g1 Henc.
    destruct enc as [[[[[qz_m qz_v] z] ql_m] ql_v] library].
    apply ret_Ok in Hrun as [-> ->].
    pose proof Henc as Hinv. unfold encode in Hinv.
    run_bind Hinv as lat g2 Hlat. destruct lat as [[qz_m0 qz_v0] z0].
    run_bind Hinv as flag g3 Hf. rewrite Hflag in Hf. injection Hf as <-.
    run_bind Hinv as enc g4 Hl.
    destruct enc as [l_encoder|]; [|destruct (raise_Ok Hinv)].
    run_bind Hinv as out g5 Hout. destruct out as [[ql_m0 ql_v0] library0].
    apply ret_Ok in Hinv as [Heq _]. injection Heq as -> -> -> -> -> ->.
    exists qz_m0, qz_v0, z0, ql_m0, ql_v0, library0.
    split; [exact Henc | reflexivity].
Qed.

End SamplingFurther.

Lemma sample_scale_and_rate_witness :
  exists px_scale px_rate g',
    sample_scale Demo.joint [[1; 2; 3]] (Some 0%Z) (Some [1%Z]) None false None 1%nat
    = Ok (px_scale, g')
    /\ sample_rate Demo.joint [[1; 2; 3]] (Some 0%Z) (Some [1%Z]) None false None 1%nat
       = Ok (px_rate, g')
    /\ tmul px_scale (texp [[ln (1 + (2 + (3 + 0)))]]) = Ok px_rate.
Proof.
  destruct (@sample_scale_and_rate nat Demo.joint [[1; 2; 3]] (Some 0%Z)
              (Some [1%Z]) None false None 1%nat) as (Hscale & _ & _).
  edestruct Hscale
    as (px_rate & qz_m & qz_v & z & ql_m & ql_v & library & g1
        & Henc & Hrate & Hmul); [demo_eval; reflexivity|].
  demo_eval_in Henc. injection Henc as <- <- <- <- <- <- <-.
  do 3 eexists. split; [demo_eval; reflexivity|].
  split; [exact Hrate | exact Hmul].
Defined.

Lemma sample_scale_decode_panel_witness :
  exists px_scale g' gathered,
    sample_scale Demo.positive [[1; 2; 3]] (Some 0%Z) (Some [1%Z]) None
                 true (Some 1%Z) 1%nat = Ok (px_scale, g')
    /\ gather px_scale (Indices [3; 4; 5; 6]%Z) = Ok gathered
    /\ sum_dim1 gathered = [1].
Proof.
  edestruct (@sample_scale_decode_panel nat Demo.positive [[1; 2; 3]] (Some 0%Z)
               (Some [1%Z]) None true (Some 1%Z) 1%nat)
    as (mapping & gathered & Hmap & Hg & Hsum).
  - intros z m lib d b l g0 s r rt dp g1 H.
    cbn [decoder Demo.positive with_decoder Demo.softmax_like] in H.
    injection H as <- _ _ _ _.
    apply Forall_forall. intros row Hrow.
    apply in_map_iff in Hrow as (r0 & <- & _).
    repeat constructor; apply exp_pos.
  - demo_eval. reflexivity.
  - demo_eval_in Hmap. injection Hmap as <-.
    demo_eval_in Hg. injection Hg as <-.
    do 3 eexists. split; [demo_eval; reflexivity|].
    split; [demo_eval; reflexivity|].
    apply Hsum. repeat constructor. discriminate.
Defined.

Lemma sample_from_posterior_l_library_witness :
  sample_from_posterior_l Demo.joint [[1; 2; 3]] (Some 0%Z) true 1%nat
  = Ok ([[ln (1 + (2 + (3 + 0)))]], 2%nat).
Proof.
  destruct (@sample_from_posterior_l_library nat Demo.joint [[1; 2; 3]]
              (Some 0%Z) false) as [Hobserved _]; [reflexivity|].
  rewrite Hobserved by reflexivity. reflexivity.
Defined.

(** ** The divergence from the standard normal prior *)

Lemma vbcast_maps {A} (f : R -> R -> R) (g1 g2 : A -> R) (l : list A) :
  vbcast f (map g1 l) (map g2 l) = Ok (map (fun p => f (g1 p) (g2 p)) l).
Proof.
  unfold vbcast, bcast.
  assert (Hgen : forall l0 : list A,
             mapM (fun ab : R * R => Ok (f (fst ab) (snd ab)))
                  (combine (map g1 l0) (map g2 l0))
             = Ok (map (fun p => f (g1 p) (g2 p)) l0)).
  { induction l0 as [|p l0 IH]; simpl; [reflexivity|]. rewrite IH. reflexivity. }
  destruct l as [|p [|q l]]; try reflexivity.
  cbn [map]. cbn [map] in Hgen.
  match goal with
  | |- context [(?a =? ?b)%nat] => replace (a =? b)%nat with true
  end; [exact (Hgen (p :: q :: l))|].
  symmetry. apply Nat.eqb_eq. simpl. rewrite !length_map. reflexivity.
Qed.

Lemma tbcast_maps {A} (f : R -> R -> R) (g1 g2 : A -> R) (t : list (list A)) :
  tbcast f (map (map g1) t) (map (map g2) t)
  = Ok (map (map (fun p => f (g1 p) (g2 p))) t).
Proof.
  unfold tbcast, bcast.
  assert (Hgen : forall t0 : list (list A),
             mapM (fun ab : vec * vec => vbcast f (fst ab) (snd ab))
                  (combine (map (map g1) t0) (map (map g2) t0))
             = Ok (map (map (fun p => f (g1 p) (g2 p))) t0)).
  { induction t0 as [|row t0 IH]; simpl; [reflexivity|].
    rewrite vbcast_maps. simpl. rewrite IH. reflexivity. }
  destruct t as [|r [|r' t]].
  - reflexivity.
  - simpl. rewrite vbcast_maps. reflexivity.
  - cbn [map]. cbn [map] in Hgen.
    match goal with
    | |- context [(?a =? ?b)%nat] => replace (a =? b)%nat with true
    end; [exact (Hgen (r :: r' :: t))|].
    symmetry. apply Nat.eqb_eq. simpl. rewrite !length_map. reflexivity.
Qed.

(** Two tensors of the same shape are the projections of a tensor of
    pairs. *)
Lemma same_shape_pairs (a b : tensor) :
  Forall2 (fun r1 r2 => length r1 = length r2) a b ->
  exists t : list (list (R * R)), a = map (map fst) t /\ b = map (map snd) t.
Proof.
  induction 1 as [|r1 r2 a b Hlen _ (t & -> & ->)].
  - exists []. split; reflexivity.
  - exists (combine r1 r2 :: t). cbn [map].
    assert (Hrow : forall (u v : list R), length u = length v ->
               u = map fst (combine u v) /\ v = map snd (combine u v)).
    { induction u as [|x u IH]; intros [|w v] Hl; try discriminate;
        [split; reflexivity|].
      injection Hl as Hl. destruct (IH v Hl) as [Hu Hv]. simpl.
      split; f_equal; assumption. }
    destruct (Hrow r1 r2 Hlen) as [H1 H2]. split; f_equal; assumption.
Qed.

Lemma tmap_maps {A} (f : R -> R) (g : A -> R) (t : list (list A)) :
  tmap f (map (map g) t) = map (map (fun p => f (g p))) t.
Proof.
  unfold tmap. rewrite map_map. apply map_ext. intros row. apply map_map.
Qed.

(** [kl(Normal(qz_m, sqrt(qz_v)), Normal(zeros, ones)).sum(dim=1)] on a
    posterior mean and variance of the same shape. *)
Lemma kl_sum_prior (t : list (list (R * R))) :
  kl_sum (map (map fst) t) (tsqrt (map (map snd) t))
         (zeros_like (map (map fst) t)) (ones_like (map (map snd) t))
  = Ok (map (fun row => rsum (map (fun p => kl_prior_entry (fst p) (snd p)) row)) t).
Proof.
  unfold kl_sum, mkNormal, kl, tsqrt, zeros_like, ones_like, tlog, tdiv, tsub,
    tadd.
  rewrite !tmap_maps.
  repeat (rewrite tbcast_maps; cbn [rbind loc scale]; rewrite ?tmap_maps).
  unfold rmap. cbn [rbind]. unfold sum_dim1. rewrite map_map. reflexivity.
Qed.

Lemma kl_prior_entry_closed (m v : R) :
  0 < v -> kl_prior_entry m v = 0.5 * (v + m * m - 1 - ln v).
Proof.
  intros Hv. unfold kl_prior_entry.
  replace (sqrt v / 1 * (sqrt v / 1)) with (sqrt v * sqrt v) by (field; lra).
  rewrite sqrt_sqrt by lra.
  replace ((m - 0) / 1 * ((m - 0) / 1)) with (m * m) by (field; lra).
  reflexivity.
Qed.

Lemma ln_below (v : R) : 0 < v -> ln v <= v - 1 /\ (ln v = v - 1 -> v = 1).
Proof.
  intros Hv. pose proof (exp_ln v Hv) as He. split.
  - pose proof (exp_ineq1_le (ln v)). lra.
  - intros Heq. destruct (Req_dec (ln v) 0) as [Hz|Hnz].
    + lra.
    + pose proof (exp_ineq1 (ln v) Hnz). lra.
Qed.

Lemma kl_prior_entry_nonneg (m v : R) :
  0 < v ->
  0 <= kl_prior_entry m v /\ (kl_prior_entry m v = 0 <-> m = 0 /\ v = 1).
Proof.
  intros Hv. rewrite kl_prior_entry_closed by exact Hv.
  destruct (ln_below Hv) as [Hle Heq].
  assert (Hm : 0 <= m * m) by nra.
  split; [lra|]. split.
  - intros H0. assert (Hmm : m * m = 0) by lra.
    assert (Hln : ln v = v - 1) by lra.
    split; [nra | auto].
  - intros [-> ->]. rewrite ln_1. lra.
Qed.

Lemma rsum_nonneg (l : list R) :
  Forall (fun a => 0 <= a) l ->
  0 <= rsum l /\ (rsum l = 0 <-> Forall (fun a => a = 0) l).
Proof.
  induction 1 as [|a l Ha _ (IH1 & IH2)]; simpl.
  - split; [lra|]. split; [constructor | reflexivity].
  - split; [lra|]. split.
    + intros H0. constructor; [lra|]. apply IH2. lra.
    + intros Hall. inversion Hall; subst.
      assert (rsum l = 0) by (apply IH2; assumption). lra.
Qed.

Lemma index_Ok_range {A} (l : list A) (mode : option Z) (a : A) :
  index l mode = Ok a ->
  exists i, mode = Some i /\ (- Z.of_nat (length l) <= i < Z.of_nat (length l))%Z.
Proof.
  destruct mode as [i|]; [|discriminate]. intros H. exists i. split; [reflexivity|].
  destruct (Z_lt_le_dec i (- Z.of_nat (length l))) as [Hlo|Hlo].
  - rewrite index_out_of_range in H by lia. discriminate.
  - destruct (Z_lt_le_dec i (Z.of_nat (length l))) as [Hhi|Hhi]; [lia|].
    rewrite index_out_of_range in H by lia. discriminate.
Qed.

Section ForwardFurther.

Variable G : Type.
Variable log_zinb_positive : tensor -> tensor -> tensor -> tensor -> result vec.
Variable log_nb_positive : tensor -> tensor -> tensor -> result vec.
Variable Poisson_log_prob : tensor -> tensor -> result tensor.
Variable self : JVAE G.

(** X10.  A [forward] that returns has used a mode (the one given, or 0
    when it was omitted and one dataset is registered) that lies within
    the library flags, the index mappings and the loss kinds, counting
    from the end when negative; its reconstruction loss is present exactly
    when the loss kind of that mode is "zinb", "nb" or "poisson". *)
Theorem forward_mode_in_range x local_l_mean local_l_var batch_index y mode
        g rl total g' :
  forward log_zinb_positive log_nb_positive Poisson_log_prob
          self x local_l_mean local_l_var batch_index y mode g
  = Ok ((rl, total), g') ->
  exists i flag mapping kind,
    (mode = Some i
     \/ (mode = None /\ i = 0%Z /\ length (n_input_list self) = 1%nat))
    /\ index (model_library_bools self) (Some i) = Ok flag
    /\ index (indices_mappings self) (Some i) = Ok mapping
    /\ index (reconstruction_losses self) (Some i) = Ok kind
    /\ (- Z.of_nat (length (model_library_bools self)) <= i
        < Z.of_nat (length (model_library_bools self)))%Z
    /\ (- Z.of_nat (length (indices_mappings self)) <= i
        < Z.of_nat (length (indices_mappings self)))%Z
    /\ (- Z.of_nat (length (reconstruction_losses self)) <= i
        < Z.of_nat (length (reconstruction_losses self)))%Z
    /\ (rl <> None <-> kind = "zinb" \/ kind = "nb" \/ kind = "poisson").
Proof.
  intros Hrun.
  assert (Hres : exists i,
             (mode = Some i
              \/ (mode = None /\ i = 0%Z /\ length (n_input_list self) = 1%nat))
             /\ forward log_zinb_positive log_nb_positive Poisson_log_prob
                        self x local_l_mean local_l_var batch_index y (Some i) g
                = Ok ((rl, total), g')).
  { destruct mode as [i|].
    - exists i. split; [left; reflexivity | exact Hrun].
    - exists 0%Z.
      destruct (Nat.eq_dec (length (n_input_list self)) 1) as [Hlen|Hlen].
      + split; [right; auto|].
        rewrite <- (forward_single log_zinb_positive log_nb_positive
                      Poisson_log_prob self x local_l_mean local_l_var
                      batch_index y Hlen). exact Hrun.
      + apply Nat.eqb_neq in Hlen. unfold forward in Hrun.
        rewrite Hlen in Hrun. discriminate. }
  destruct Hres as (i & Hmode & Hrun').
  apply forward_Ok in Hrun'
    as (qz_m & qz_v & z & ql_m & ql_v & library & g1 & ps & pr & prate & pd
        & mp & gr & grr & gd & kl_z & flag & kl_l
        & _ & _ & Hmap & _ & _ & _ & Hrl & _ & Hflag & _); [|discriminate].
  unfold reconstruction_loss in Hrl.
  apply rbind_Ok in Hrl as (kind & Hkind & Hrl).
  exists i, flag, mp, kind.
  destruct (index_Ok_range _ _ Hflag) as (i1 & Hi1 & Hr1). injection Hi1 as <-.
  destruct (index_Ok_range _ _ Hmap) as (i2 & Hi2 & Hr2). injection Hi2 as <-.
  destruct (index_Ok_range _ _ Hkind) as (i3 & Hi3 & Hr3). injection Hi3 as <-.
  repeat (split; [assumption|]).
  destruct (String.eqb_spec kind "zinb") as [Hz|Hz].
  - apply rmap_Ok in Hrl as (l & _ & ->). split; [auto | discriminate].
  - destruct (String.eqb_spec kind "nb") as [Hn|Hn].
    + apply rmap_Ok in Hrl as (l & _ & ->). split; [auto | discriminate].
    + destruct (String.eqb_spec kind "poisson") as [Hp|Hp].
      * apply rmap_Ok in Hrl as (l & _ & ->). split; [auto | discriminate].
      * injection Hrl as <-. split; [congruence|].
        intros [H|[H|H]]; congruence.
Qed.

(** X11.  At a mode that does not model the library, with a posterior
    mean and variance of the same shape, the divergence returned by
    [forward] is, in each cell, the sum over latent coordinates of
    [0.5 * (v + m * m - 1 - ln v)] as [kl] computes it.  When the variances
    are positive it is non-negative, and it is zero in a cell exactly when
    every mean of the cell is 0 and every variance 1. *)
Theorem forward_kl_prior x local_l_mean local_l_var batch_index y mode g
        rl total g' (t : list (list (R * R))) z ql_m ql_v library g1 :
  index (model_library_bools self) mode = Ok false ->
  encode self x mode g
  = Ok ((map (map fst) t, map (map snd) t, z, ql_m, ql_v, library), g1) ->
  forward log_zinb_positive log_nb_positive Poisson_log_prob
          self x local_l_mean local_l_var batch_index y mode g
  = Ok ((rl, total), g') ->
  total = map (fun row => rsum (map (fun p => kl_prior_entry (fst p) (snd p)) row)) t
  /\ (Forall (Forall (fun p => 0 < snd p)) t ->
      total = map (fun row =>
                     rsum (map (fun p => 0.5 * (snd p + fst p * fst p - 1 - ln (snd p)))
                               row)) t
      /\ Forall2 (fun row k =>
                    0 <= k
                    /\ (k = 0 <-> Forall (fun p => fst p = 0 /\ snd p = 1) row))
                 t total).
Proof.
  intros Hflag Henc Hrun.
  assert (Hmode : mode <> None) by (intros ->; discriminate).
  apply forward_Ok in Hrun
    as (qz_m & qz_v & z0 & ql_m0 & ql_v0 & library0 & g2 & ps & pr & prate & pd
        & mp & gr & grr & gd & kl_z & flag & kl_l
        & Henc' & _ & _ & _ & _ & _ & _ & Hklz & Hflag' & Hkll & Htot);
    [|exact Hmode].
  rewrite Henc in Henc'. injection Henc' as <- <- <- <- <- <- <-.
  rewrite Hflag in Hflag'. injection Hflag' as <-. injection Hkll as <-.
  rewrite vadd_zeros_like in Htot. injection Htot as <-.
  rewrite kl_sum_prior in Hklz. injection Hklz as <-.
  split; [reflexivity|].
  intros Hpos. split.
  - apply map_ext_in. intros row Hrow. f_equal. apply map_ext_in. intros p Hp.
    apply kl_prior_entry_closed.
    rewrite Forall_forall in Hpos. specialize (Hpos row Hrow).
    rewrite Forall_forall in Hpos. auto.
  - clear Henc. induction Hpos as [|row t Hrow _ IH]; [constructor|].
    cbn [map]. constructor; [|exact IH].
    assert (Hnn : Forall (fun a => 0 <= a)
                         (map (fun p => kl_prior_entry (fst p) (snd p)) row)).
    { apply Forall_forall. intros a Ha. apply in_map_iff in Ha as (p & <- & Hp).
      rewrite Forall_forall in Hrow. apply kl_prior_entry_nonneg. auto. }
    destruct (rsum_nonneg Hnn) as [H0 Hiff]. split; [exact H0|].
    rewrite Hiff. rewrite Forall_map. split.
    + intros Hall. rewrite Forall_forall in Hall, Hrow |- *. intros p Hp.
      apply (kl_prior_entry_nonneg (fst p) (Hrow p Hp)). auto.
    + intros Hall. rewrite Forall_forall in Hall, Hrow |- *. intros p Hp.
      apply (kl_prior_entry_nonneg (fst p) (Hrow p Hp)). auto.
Qed.

End ForwardFurther.

Lemma forward_mode_in_range_witness :
  exists rl total g',
    forward Demo.log_zinb_positive Demo.log_nb_positive Demo.Poisson_log_prob
            Demo.single [[1; 2; 3]] [[0]] [[1]] None None None 1%nat
    = Ok ((rl, total), g')
    /\ rl <> None.
Proof.
  assert (Hrun : exists rl total g',
             forward Demo.log_zinb_positive Demo.log_nb_positive
                     Demo.Poisson_log_prob Demo.single
                     [[1; 2; 3]] [[0]] [[1]] None None None 1%nat
             = Ok ((rl, total), g'))
    by (do 3 eexists; demo_eval; reflexivity).
  destruct Hrun as (rl & total & g' & Hrun).
  exists rl, total, g'. split; [exact Hrun|].
  destruct (forward_mode_in_range _ _ _ _ _ _ _ _ _ _ _ Hrun)
    as (i & flag & mapping & kind & Hmode & _ & _ & Hkind & _ & _ & _ & Hloss).
  destruct Hmode as [Hmode | (_ & -> & _)]; [discriminate|].
  demo_eval_in Hkind. injection Hkind as <-.
  apply Hloss. right. right. reflexivity.
Defined.

Lemma forward_kl_prior_witness :
  exists rl k g',
    forward Demo.log_zinb_positive Demo.log_nb_positive Demo.Poisson_log_prob
            Demo.raw_input [[1; 2; 3]] [[0]] [[1]] (Some [1%Z]) None
            (Some 0%Z) 1%nat
    = Ok ((rl, [k]), g')
    /\ 0 <= k.
Proof.
  edestruct (@forward_kl_prior nat Demo.log_zinb_positive Demo.log_nb_positive
               Demo.Poisson_log_prob Demo.raw_input [[1; 2; 3]] [[0]] [[1]]
               (Some [1%Z]) None (Some 0%Z) 1%nat)
    with (t := [[(1, 1); (2, 1); (3, 1)]]) as (Htotal & Hpos).
  - reflexivity.
  - demo_eval. reflexivity.
  - demo_eval. reflexivity.
  - destruct Hpos as [_ Hcells]; [repeat constructor; simpl; lra|].
    inversion Hcells as [|row k t total [Hk _] Hrest Ht Htot]; subst.
    inversion Hrest; subst.
    do 3 eexists. split; [demo_eval; reflexivity | exact Hk].
Defined.

(** ** The library divergence at its prior *)

(** [kl(Normal(m, sqrt(v)), Normal(m, sqrt(v))).sum(dim=1)] *)
Lemma kl_sum_self (t : list (list (R * R))) :
  kl_sum (map (map fst) t) (tsqrt (map (map snd) t))
         (map (map fst) t) (tsqrt (map (map snd) t))
  = Ok (map (fun row =>
               rsum (map (fun p =>
                            0.5 * (sqrt (snd p) / sqrt (snd p)
                                   * (sqrt (snd p) / sqrt (snd p))
                                   + (fst p - fst p) / sqrt (snd p)
                                     * ((fst p - fst p) / sqrt (snd p))
                                   - 1
                                   - ln (sqrt (snd p) / sqrt (snd p)
                                         * (sqrt (snd p) / sqrt (snd p)))))
                         row)) t).
Proof.
  unfold kl_sum, mkNormal, kl, tsqrt, tlog, tdiv, tsub, tadd.
  rewrite !tmap_maps.
  repeat (rewrite tbcast_maps; cbn [rbind loc scale]; rewrite ?tmap_maps).
  unfold rmap. cbn [rbind]. unfold sum_dim1. rewrite map_map. reflexivity.
Qed.

Lemma kl_self_entry (m v : R) :
  0 < v ->
  0.5 * (sqrt v / sqrt v * (sqrt v / sqrt v)
         + (m - m) / sqrt v * ((m - m) / sqrt v) - 1
         - ln (sqrt v / sqrt v * (sqrt v / sqrt v))) = 0.
Proof.
  intros Hv. assert (Hs : 0 < sqrt v) by (apply sqrt_lt_R0; exact Hv).
  replace (sqrt v / sqrt v) with 1 by (field; lra).
  replace ((m - m) / sqrt v) with 0 by (field; lra).
  rewrite Rmult_1_r, ln_1. lra.
Qed.

Lemma vadd_zeros (zs v : vec) :
  length zs = length v -> Forall (fun a => a = 0) zs -> vadd zs v = Ok v.
Proof.
  intros Hlen Hz.
  assert (Heq : zs = vzeros_like v).
  { unfold vzeros_like. revert v Hlen.
    induction Hz as [|a zs -> _ IH]; intros [|b v] Hlen; try discriminate;
      [reflexivity|].
    simpl. f_equal. apply IH. simpl in Hlen. lia. }
  rewrite Heq. apply vadd_zeros_like.
Qed.

Section LibraryPrior.

Variable G : Type.
Variable log_zinb_positive : tensor -> tensor -> tensor -> tensor -> result vec.
Variable log_nb_positive : tensor -> tensor -> tensor -> result vec.
Variable Poisson_log_prob : tensor -> tensor -> result tensor.
Variable self : JVAE G.

(** X12.  At a mode that models the library, when the library posterior
    returned by [encode] coincides with the prior handed to [forward]
    (same mean, same positive variance, one row per cell), the library
    term vanishes and the divergence returned by [forward] is the latent
    one alone. *)
Theorem forward_kl_library_at_prior x batch_index y mode g rl total g'
        (tz tl : list (list (R * R))) z library g1 :
  index (model_library_bools self) mode = Ok true ->
  encode self x mode g
  = Ok ((map (map fst) tz, map (map snd) tz, z,
         Some (map (map fst) tl), Some (map (map snd) tl), library), g1) ->
  length tl = length tz ->
  Forall (Forall (fun p => 0 < snd p)) tl ->
  forward log_zinb_positive log_nb_positive Poisson_log_prob
          self x (map (map fst) tl) (map (map snd) tl) batch_index y mode g
  = Ok ((rl, total), g') ->
  total = map (fun row => rsum (map (fun p => kl_prior_entry (fst p) (snd p)) row)) tz.
Proof.
  intros Hflag Henc Hlen Hpos Hrun.
  assert (Hmode : mode <> None) by (intros ->; discriminate).
  apply forward_Ok in Hrun
    as (qz_m & qz_v & z0 & ql_m0 & ql_v0 & library0 & g2 & ps & pr & prate & pd
        & mp & gr & grr & gd & kl_z & flag & kl_l
        & Henc' & _ & _ & _ & _ & _ & _ & Hklz & Hflag' & Hkll & Htot);
    [|exact Hmode].
  rewrite Henc in Henc'. injection Henc' as <- <- <- <- <- <- <-.
  rewrite Hflag in Hflag'. injection Hflag' as <-.
  cbn [the_tensor rbind] in Hkll. rewrite kl_sum_self in Hkll.
  injection Hkll as <-.
  rewrite kl_sum_prior in Hklz. injection Hklz as <-.
  rewrite vadd_zeros in Htot; [congruence | |].
  - rewrite !length_map. exact Hlen.
  - apply Forall_forall. intros k Hk. apply in_map_iff in Hk as (row & <- & Hrow).
    rewrite Forall_forall in Hpos. specialize (Hpos row Hrow).
    assert (Hz : Forall (fun a => a = 0)
                   (map (fun p =>
                           0.5 * (sqrt (snd p) / sqrt (snd p)
                                  * (sqrt (snd p) / sqrt (snd p))
                                  + (fst p - fst p) / sqrt (snd p)
                                    * ((fst p - fst p) / sqrt (snd p))
                                  - 1
                                  - ln (sqrt (snd p) / sqrt (snd p)
                                        * (sqrt (snd p) / sqrt (snd p)))))
                        row)).
    { apply Forall_forall. intros a Ha. apply in_map_iff in Ha as (p & <- & Hp).
      apply kl_self_entry. rewrite Forall_forall in Hpos. auto. }
    clear Hpos. induction Hz as [|a l -> _ IH]; simpl; [reflexivity|].
    rewrite IH. lra.
Qed.

End LibraryPrior.

Lemma forward_kl_library_at_prior_witness :
  exists rl total g',
    forward Demo.log_zinb_positive Demo.log_nb_positive Demo.Poisson_log_prob
            Demo.raw_input [[1; 2; 3; 4]] [[1 + (2 + (3 + (4 + 0)))]] [[1]]
            (Some [1%Z]) None (Some 1%Z) 1%nat
    = Ok ((rl, total), g')
    /\ total = [kl_prior_entry 1 1
                + (kl_prior_entry 2 1
                   + (kl_prior_entry 3 1 + (kl_prior_entry 4 1 + 0)))].
Proof.
  assert (Hrun : exists rl total g',
             forward Demo.log_zinb_positive Demo.log_nb_positive
                     Demo.Poisson_log_prob Demo.raw_input
                     [[1; 2; 3; 4]] [[1 + (2 + (3 + (4 + 0)))]] [[1]]
                     (Some [1%Z]) None (Some 1%Z) 1%nat
             = Ok ((rl, total), g'))
    by (do 3 eexists; demo_eval; reflexivity).
  destruct Hrun as (rl & total & g' & Hrun).
  exists rl, total, g'. split; [exact Hrun|].
  eapply (@forward_kl_library_at_prior nat Demo.log_zinb_positive
            Demo.log_nb_positive Demo.Poisson_log_prob Demo.raw_input
            [[1; 2; 3; 4]] (Some [1%Z]) None (Some 1%Z) 1%nat rl total g'
            [[(1, 1); (2, 1); (3, 1); (4, 1)]]
            [[(1 + (2 + (3 + (4 + 0))), 1)]]).
  - reflexivity.
  - demo_eval. reflexivity.
  - reflexivity.
  - repeat constructor; simpl; lra.
  - exact Hrun.
Defined.

(** ** The loss looks at the observed genes only *)

Section Masking.

Variable G : Type.
Variable log_zinb_positive : tensor -> tensor -> tensor -> tensor -> result vec.
Variable log_nb_positive : tensor -> tensor -> tensor -> result vec.
Variable Poisson_log_prob : tensor -> tensor -> result tensor.
Variable self : JVAE G.

(** X13.  [forward] masks the loss to the observed genes: replacing the
    decoder network by one that returns the same scale and raw dispersion
    and the same dropout logits in the columns of the mode's mapping
    (whatever its raw rate, and whatever its dropout logits elsewhere)
    changes nothing in what [forward] returns or raises. *)
Theorem forward_masks_unobserved (d : decoder_net G) i mapping batch_index y :
  index (indices_mappings self) (Some i) = Ok mapping ->
  (forall z lib g0,
      match decoder self z (Some i) lib (dispersion self) batch_index y g0,
            d z (Some i) lib (dispersion self) batch_index y g0 with
      | Ok ((s1, r1, rt1, dp1), g1), Ok ((s2, r2, rt2, dp2), g2) =>
          s1 = s2 /\ r1 = r2 /\ g1 = g2
          /\ gather dp1 mapping = gather dp2 mapping
      | Raise e1, Raise e2 => e1 = e2
      | _, _ => False
      end) ->
  forall x local_l_mean local_l_var g,
    forward log_zinb_positive log_nb_positive Poisson_log_prob
            (with_decoder self d) x local_l_mean local_l_var batch_index y
            (Some i) g
    = forward log_zinb_positive log_nb_positive Poisson_log_prob
              self x local_l_mean local_l_var batch_index y (Some i) g.
Proof.
  intros Hmap Hagree x local_l_mean local_l_var g.
  unfold forward, bind. cbn [ret].
  change (encode (with_decoder self d) x (Some i) g)
    with (encode self x (Some i) g).
  destruct (encode self x (Some i) g)
    as [[[[[[[qz_m qz_v] z] ql_m] ql_v] library] g1]|e]; [|reflexivity].
  unfold decode, bind.
  cbn [decoder with_decoder dispersion indices_mappings].
  specialize (Hagree z library g1).
  destruct (decoder self z (Some i) library (dispersion self) batch_index y g1)
    as [[[[[s1 r1] rt1] dp1] g2]|e1];
    destruct (d z (Some i) library (dispersion self) batch_index y g1)
      as [[[[[s2 r2] rt2] dp2] g3]|e2];
    try contradiction; [|subst; reflexivity].
  destruct Hagree as (-> & -> & -> & Hdp).
  change (resolve_px_r (with_decoder self d) r2 batch_index y)
    with (resolve_px_r self r2 batch_index y).
  unfold lift. destruct (resolve_px_r self r2 batch_index y) as [res|e];
    [|reflexivity].
  rewrite Hmap.
  destruct (gather s2 mapping) as [gathered|e]; [|reflexivity].
  destruct (tdiv s2 (view_col (sum_dim1 gathered))) as [ps|e]; [|reflexivity].
  destruct (tmul ps (texp library)) as [prate|e]; [|reflexivity].
  unfold ret.
  destruct (gather prate mapping) as [g_rate|e]; [|reflexivity].
  destruct (gather (texp res) mapping) as [g_r|e]; [|reflexivity].
  rewrite Hdp. reflexivity.
Qed.

End Masking.

Lemma forward_masks_unobserved_witness :
  forward Demo.log_zinb_positive Demo.log_nb_positive Demo.Poisson_log_prob
          (with_decoder Demo.joint Demo.noisy_decoder)
          [[1; 2; 3]] [[0]] [[1]] (Some [1%Z]) None (Some 0%Z) 1%nat
  = forward Demo.log_zinb_positive Demo.log_nb_positive Demo.Poisson_log_prob
            Demo.joint [[1; 2; 3]] [[0]] [[1]] (Some [1%Z]) None (Some 0%Z) 1%nat.
Proof.
  apply (@forward_masks_unobserved nat Demo.log_zinb_positive
           Demo.log_nb_positive Demo.Poisson_log_prob Demo.joint
           Demo.noisy_decoder 0%Z (Indices [0; 1; 2]%Z)).
  - reflexivity.
  - intros z lib g0.
    change (decoder Demo.joint)
      with (Demo.MultiDecoder 3 7 32 128 0 0 [2%nat] 0.3).
    unfold Demo.noisy_decoder, Demo.MultiDecoder.
    split; [reflexivity|]. split; [reflexivity|]. split; [reflexivity|].
    unfold gather, zeros_like, tmap.
    change (int64_index (Indices [0; 1; 2]%Z)) with true. cbv iota.
    rewrite !map_map.
    induction z as [|row z IH]; [reflexivity|].
    cbn [map mapM]. rewrite IH. reflexivity.
Defined.
